(** * The document processor of the sustainability RAG pipeline

    A shallow embedding of [DocumentProcessor]
    (src/extractors/text_extractor.py): the line-oriented chunker
    [_split_text], the keyword/number candidate extractor
    [_extract_metric_candidates] and the driver [process_document].

    Python strings are sequences of Unicode code points, so a [str] is
    a list of code points and [len] is the length of that list.  The
    regular expressions of the source are kept as data and run by a
    small backtracking matcher with the priorities of Python's [re]. *)

From Stdlib Require Import List NArith ZArith Bool Lia Ascii String Sorted.
Import ListNotations.

Set Implicit Arguments.

(** ** Python strings *)

Module PyStr.

(** A character is a code point, a string a list of them. *)
Abbreviation char := N (only parsing).
Abbreviation str := (list N) (only parsing).

Definition len (s : str) : Z := Z.of_nat (List.length s).

(** Truth value of a string: only the empty string is false. *)
Definition truthy (s : str) : bool :=
  match s with [] => false | _ :: _ => true end.

Definition LF : char := 10%N.

Fixpoint str_eqb (a b : str) : bool :=
  match a, b with
  | [], [] => true
  | x :: a', y :: b' => N.eqb x y && str_eqb a' b'
  | _, _ => false
  end.

(** Source literals are written as UTF-8 text and decoded to code points. *)
Fixpoint utf8 (bs : list N) : str :=
  match bs with
  | [] => []
  | b0 :: r0 =>
    if (b0 <? 128)%N then b0 :: utf8 r0
    else if (b0 <? 224)%N then
      match r0 with
      | b1 :: r1 => ((b0 - 192) * 64 + (b1 - 128))%N :: utf8 r1
      | _ => []
      end
    else if (b0 <? 240)%N then
      match r0 with
      | b1 :: b2 :: r2 =>
        ((b0 - 224) * 4096 + (b1 - 128) * 64 + (b2 - 128))%N :: utf8 r2
      | _ => []
      end
    else
      match r0 with
      | b1 :: b2 :: b3 :: r3 =>
        ((b0 - 240) * 262144 + (b1 - 128) * 4096
         + (b2 - 128) * 64 + (b3 - 128))%N :: utf8 r3
      | _ => []
      end
  end.

Definition lit (s : string) : str :=
  utf8 (map N_of_ascii (list_ascii_of_string s)).

Definition inrange (lo hi c : N) : bool := ((lo <=? c) && (c <=? hi))%N.

(** [str.isspace] on one code point; also the class [\s] of [re]. *)
Definition isspace (c : char) : bool :=
  inrange 9 13 c || inrange 28 32 c || N.eqb c 133 || N.eqb c 160
  || N.eqb c 5760 || inrange 8192 8202 c || inrange 8232 8233 c
  || N.eqb c 8239 || N.eqb c 8287 || N.eqb c 12288.

(** First code points of the runs of ten decimal digits (general
    category Nd), and the one longer run of mathematical digits. *)
Definition decimal_runs : list N :=
  [48; 1632; 1776; 1984; 2406; 2534; 2662; 2790; 2918; 3046; 3174; 3302;
   3430; 3558; 3664; 3792; 3872; 4160; 4240; 6112; 6160; 6470; 6608; 6784;
   6800; 6992; 7088; 7232; 7248; 42528; 43216; 43264; 43472; 43504; 43600;
   44016; 65296; 66720; 68912; 69734; 69872; 69942; 70096; 70384; 70736;
   70864; 71248; 71360; 71472; 71904; 72016; 72784; 73040; 73120; 92768;
   92864; 93008; 123200; 123632; 125264; 130032]%N.

(** The class [\d] of [re] on a [str] pattern. *)
Definition isdecimal (c : char) : bool :=
  existsb (fun lo => inrange lo (lo + 9) c) decimal_runs
  || inrange 120782 120831 c.

(** [s.split('\n')]: one piece more than there are line feeds. *)
Fixpoint split_lines (s : str) : list str :=
  match s with
  | [] => [[]]
  | c :: s' =>
    if N.eqb c LF then [] :: split_lines s'
    else match split_lines s' with
         | l :: ls => (c :: l) :: ls
         | [] => [[c]]
         end
  end.

(** ['\n'.join(ls)]. *)
Fixpoint join_lines (ls : list str) : str :=
  match ls with
  | [] => []
  | [l] => l
  | l :: ls' => l ++ LF :: join_lines ls'
  end.

Fixpoint lstrip (s : str) : str :=
  match s with
  | [] => []
  | c :: s' => if isspace c then lstrip s' else s
  end.

Definition rstrip (s : str) : str := rev (lstrip (rev s)).

(** [s.strip()]: white space removed at both ends. *)
Definition strip (s : str) : str := rstrip (lstrip s).

(** A blank line holds white space only. *)
Definition blank (s : str) : bool := forallb isspace s.

(** [str(n)] for a non-negative integer. *)
Fixpoint digits_fuel (fuel : nat) (n : N) (acc : str) : str :=
  match fuel with
  | O => acc
  | S fuel' =>
    let acc' := (48 + n mod 10)%N :: acc in
    if (n <? 10)%N then acc' else digits_fuel fuel' (n / 10)%N acc'
  end.

Definition str_of_N (n : N) : str := digits_fuel (S (N.to_nat (N.log2 n))) n [].

End PyStr.
Import PyStr.

(** ** Regular expressions with the priorities of a backtracking matcher *)

Module Regex.

Inductive regex : Type :=
| Eps : regex
| Class : (char -> bool) -> regex
| Seq : regex -> regex -> regex
| Alt : regex -> regex -> regex
| Star : bool -> regex -> regex      (* [true]: greedy, [false]: lazy *)
| Group : nat -> regex -> regex.     (* capturing group, numbered from 1 *)

Definition Chr (c : char) : regex := Class (N.eqb c).
Definition OneOf (cs : str) : regex := Class (fun c => existsb (N.eqb c) cs).
Definition NoneOf (cs : str) : regex :=
  Class (fun c => negb (existsb (N.eqb c) cs)).
Definition Plus (r : regex) : regex := Seq r (Star true r).
Definition Opt (r : regex) : regex := Alt r Eps.

Fixpoint Lit (s : str) : regex :=
  match s with
  | [] => Eps
  | c :: s' => Seq (Chr c) (Lit s')
  end.

Fixpoint Alts (rs : list regex) : regex :=
  match rs with
  | [] => Class (fun _ => false)
  | [r] => r
  | r :: rs' => Alt r (Alts rs')
  end.

(** Number of capturing groups of a pattern: [len(match.groups())]. *)
Fixpoint ngroups (r : regex) : nat :=
  match r with
  | Eps | Class _ => 0
  | Seq a b | Alt a b => ngroups a + ngroups b
  | Star _ a => ngroups a
  | Group _ a => S (ngroups a)
  end.

(** Matcher state: the input still to read and the groups captured so far. *)
Record mstate : Type := MState { rest : str; caps : list (nat * str) }.

Definition consumed (before after : str) : str :=
  firstn (List.length before - List.length after) before.

Section Matcher.
Variable R : Type.

(** Repetition of [body]: greedy tries one more turn first, lazy tries
    the continuation first.  A turn has to consume input, so the length
    of the input bounds the number of turns. *)
Fixpoint star_iter (body : mstate -> (mstate -> option R) -> option R)
         (greedy : bool) (k : mstate -> option R) (fuel : nat) (s : mstate)
  : option R :=
  match fuel with
  | O => k s
  | S fuel' =>
    let again :=
      body s (fun s' =>
        if Nat.ltb (List.length (rest s')) (List.length (rest s))
        then star_iter body greedy k fuel' s' else None) in
    if greedy then
      match again with Some x => Some x | None => k s end
    else
      match k s with Some x => Some x | None => again end
  end.

Fixpoint run (r : regex) (s : mstate) (k : mstate -> option R) : option R :=
  match r with
  | Eps => k s
  | Class p =>
    match rest s with
    | c :: t => if p c then k (MState t (caps s)) else None
    | [] => None
    end
  | Seq a b => run a s (fun s' => run b s' k)
  | Alt a b =>
    match run a s k with
    | Some x => Some x
    | None => run b s k
    end
  | Star greedy a => star_iter (run a) greedy k (List.length (rest s)) s
  | Group i a =>
    run a s (fun s' =>
      k (MState (rest s') ((i, consumed (rest s) (rest s')) :: caps s')))
  end.

End Matcher.

(** A match object: span in the searched text, matched text, groups. *)
Record re_match : Type := Match {
  m_start : nat;
  m_end : nat;
  group0 : str;
  m_caps : list (nat * str)
}.

Fixpoint lookup_cap (i : nat) (cs : list (nat * str)) : option str :=
  match cs with
  | [] => None
  | (j, v) :: cs' => if Nat.eqb i j then Some v else lookup_cap i cs'
  end.

(** [m.group(i)] for [i >= 1]; [None] for a group that took no part. *)
Definition group (m : re_match) (i : nat) : option str := lookup_cap i (m_caps m).

(** The pattern tried at the start of [s], which begins at offset [pos]. *)
Definition match_at (r : regex) (pos : nat) (s : str) : option re_match :=
  run r (MState s [])
      (fun s' =>
         let g := consumed s (rest s') in
         Some (Match pos (pos + List.length g) g (caps s'))).

(** [re.match(r, s)]. *)
Definition re_match_ (r : regex) (s : str) : option re_match := match_at r 0 s.

(** [re.finditer(r, s)]: leftmost matches, left to right, not overlapping.
    [skip] counts the characters still covered by the previous match;
    the search resumes where a match ended (one character further after
    an empty match, which the patterns of this program never produce:
    each begins with a keyword). *)
Fixpoint finditer_from (r : regex) (pos skip : nat) (s : str) : list re_match :=
  match skip with
  | S skip' =>
    match s with
    | [] => []
    | _ :: s' => finditer_from r (S pos) skip' s'
    end
  | O =>
    match match_at r pos s with
    | Some m =>
      m :: match s with
           | [] => []
           | _ :: s' => finditer_from r (S pos) (m_end m - m_start m - 1) s'
           end
    | None =>
      match s with
      | [] => []
      | _ :: s' => finditer_from r (S pos) 0 s'
      end
    end
  end.

Definition finditer (r : regex) (s : str) : list re_match := finditer_from r 0 0 s.

End Regex.
Import Regex.

(** ** The processor object and its chunker *)

(** The configuration dictionary, read with [config.get(key, default)]. *)
Record Config : Type := MkConfig {
  cfg_chunk_size : option Z;
  cfg_chunk_overlap : option Z
}.

Record DocumentProcessor : Type := MkProcessor {
  chunk_size : Z;
  chunk_overlap : Z
}.

Definition get_default (o : option Z) (d : Z) : Z :=
  match o with Some v => v | None => d end.

Definition __init__ (config : Config) : DocumentProcessor :=
  MkProcessor (get_default (cfg_chunk_size config) 1000)
              (get_default (cfg_chunk_overlap config) 200).

Definition default_processor : DocumentProcessor := __init__ (MkConfig None None).

Module Chunker.

Definition cn_numerals : str := lit "一二三四五六七八九十".

(** The three heading alternatives of the pattern. *)
Definition heading_alternatives : regex :=
  Alts [ Seq (Plus (OneOf cn_numerals)) (Lit (lit "、"));
         Seq (Plus (Class isdecimal)) (Chr 46%N);
         Seq (Lit (lit "第")) (Seq (Plus (OneOf cn_numerals)) (Lit (lit "章"))) ].

(** [section_pattern], as the source writes it: a line feed, then a heading. *)
Definition section_pattern : regex := Seq (Chr LF) heading_alternatives.

(** State of the line scan: the chunks flushed so far and the buffer. *)
Definition scan_state : Type := (list str * str)%type.

(** Truth value of the result of [re.match]: [None] is false. *)
Definition matched (m : option re_match) : bool :=
  match m with Some _ => true | None => false end.

(** One turn of the loop over the lines. *)
Definition split_step (self : DocumentProcessor) (st : scan_state) (line : str)
  : scan_state :=
  let '(chunks, current_chunk) := st in
  if matched (re_match_ section_pattern line) && truthy current_chunk
  then (chunks ++ [strip current_chunk], line)
  else
    if (len current_chunk + len line >? chunk_size self - chunk_overlap self)%Z
    then ((if truthy current_chunk
           then chunks ++ [strip current_chunk] else chunks), line)
    else (chunks, current_chunk ++ LF :: line).

Definition scan (self : DocumentProcessor) (lines : list str) (st : scan_state)
  : scan_state :=
  fold_left (split_step self) lines st.

Definition flush_last (st : scan_state) : list str :=
  let '(chunks, current_chunk) := st in
  if truthy current_chunk then chunks ++ [strip current_chunk] else chunks.

Definition _split_text (self : DocumentProcessor) (text : str) : list str :=
  flush_last (scan self (split_lines text) ([], [])).

End Chunker.
Import Chunker.

(** ** Metric candidates *)

Module Metrics.

Record candidate : Type := Candidate {
  keyword : str;
  context : str;
  value : option str;
  unit : option str
}.

Definition unit_symbols : list str :=
  map lit ["%"; "％"; "萬"; "億"; "個"; "人"; "元"; "小時"; "分鐘"]%string.

(** [number_pattern]: one capturing group for the number; the unit
    alternation is written [(?:...)] and does not capture. *)
Definition number_pattern : regex :=
  Seq (Group 1 (Seq (Plus (Class isdecimal))
                    (Opt (Seq (Chr 46%N) (Plus (Class isdecimal))))))
      (Seq (Star true (Class isspace))
           (Opt (Alts (map Lit unit_symbols)))).

Definition esg_keywords : list str :=
  map lit ["員工"; "環境"; "碳排"; "能源"; "培訓"; "薪資"; "安全"; "事故"]%string.

(** The pattern built for one keyword:
    keyword, [[^。\n]*?], [number_pattern]. *)
Definition keyword_pattern (kw : str) : regex :=
  Seq (Lit kw)
      (Seq (Star false (NoneOf (lit "。" ++ [LF]))) number_pattern).

(** The dictionary appended for one match. *)
Definition candidate_of (kw : str) (m : re_match) : candidate :=
  Candidate kw (group0 m) (group m 1)
            (if Nat.ltb 1 (ngroups (keyword_pattern kw))
             then group m 2 else None).

(** The matches visited by the two nested loops, each with its keyword. *)
Definition metric_matches (text : str) : list (str * re_match) :=
  flat_map (fun kw => map (pair kw) (finditer (keyword_pattern kw) text))
           esg_keywords.

Definition _extract_metric_candidates (text : str) : list candidate :=
  map (fun km => candidate_of (fst km) (snd km)) (metric_matches text).

End Metrics.
Import Metrics.

(** ** The document pipeline *)

Module Pipeline.

Inductive exn_class : Type :=
| ValueError | TypeError | AttributeError | OtherException.

(** A raised exception: its class and the text [str(e)]. *)
Record exn : Type := Exn { exn_kind : exn_class; exn_text : str }.

(** What a call leaves behind besides its result. *)
Inductive event : Type :=
| FileRead : str -> event          (* a reader library opened this path *)
| LogWarning : str -> event
| LogError : str -> event.

(** Computations that log, open files and may raise. *)
Definition M (A : Type) : Type := (list event * (exn + A))%type.

Definition ret {A} (a : A) : M A := ([], inr a).
Definition raise {A} (e : exn) : M A := ([], inl e).
Definition emit (ev : event) : M Datatypes.unit := ([ev], inr tt).

Definition bind {A B} (m : M A) (f : A -> M B) : M B :=
  match m with
  | (evs, inl e) => (evs, inl e)
  | (evs, inr a) => let '(evs', r) := f a in (evs ++ evs', r)
  end.

(** [try: m except Exception as e: h e]. *)
Definition try_except {A} (m : M A) (h : exn -> M A) : M A :=
  match m with
  | (evs, inl e) => let '(evs', r) := h e in (evs ++ evs', r)
  | (evs, inr a) => (evs, inr a)
  end.

Definition lift {A} (r : exn + A) : M A := ([], r).

Notation "x <- m ;; k" := (bind m (fun x => k))
  (at level 61, m at next level, right associativity).
Notation "' pat <- m ;; k" := (bind m (fun x => match x with pat => k end))
  (at level 61, pat pattern, m at next level, right associativity).

Fixpoint foldM {A B} (f : A -> B -> M A) (a : A) (xs : list B) : M A :=
  match xs with
  | [] => ret a
  | x :: xs' => a' <- f a x ;; foldM f a' xs'
  end.

(** A column label of a table; joining labels needs strings. *)
Inductive label : Type :=
| StrLabel : str -> label
| OtherLabel : str -> label.       (* a label of another type, with its type name *)

(** [sep.join(labels)], raising [TypeError] at the first label that is no string. *)
Fixpoint join_labels (sep : str) (i : N) (ls : list label) : exn + str :=
  match ls with
  | [] => inr []
  | StrLabel s :: ls' =>
    match ls' with
    | [] => inr s
    | _ :: _ =>
      match join_labels sep (N.succ i) ls' with
      | inr t => inr (s ++ sep ++ t)
      | inl e => inl e
      end
    end
  | OtherLabel ty :: _ =>
    inl (Exn TypeError
             (lit "sequence item " ++ str_of_N i
              ++ lit ": expected str instance, " ++ ty ++ lit " found"))
  end.

Record Metadata : Type := MkMetadata {
  file_name : str;
  file_type : str;
  process_time : str;
  tables_found : Z;
  total_chunks : Z
}.

(** A Word document as the reader sees it: paragraph texts, and per
    table the rows of cell texts. *)
Record docx_document : Type := DocxDocument {
  paragraphs : list str;
  tables : list (list (list str))
}.

(** Paths and tables, the libraries that read them, and the clock. *)
Class Libraries : Type := {
  Path : Type;
  path_name : Path -> str;                  (* file_path.name *)
  path_suffix : Path -> str;                (* file_path.suffix *)
  path_str : Path -> str;                   (* str(file_path) *)
  lower : str -> str;                       (* s.lower() *)
  now_isoformat : str;                      (* datetime.now().isoformat() *)
  DataFrame : Type;
  columns : DataFrame -> list label;        (* df.columns *)
  to_string : DataFrame -> str;             (* df.to_string(index=False) *)
  pd_DataFrame : list (list str) -> list str -> exn + DataFrame;
  Page : Type;
  PdfReader : Path -> exn + list Page;      (* PdfReader(path).pages *)
  extract_text : Page -> exn + str;
  (* the class calls this method and does not define it *)
  _extract_tables_from_pdf_page : Page -> exn + list DataFrame;
  docx_Document : Path -> exn + docx_document;
  pd_ExcelFile : Path -> exn + list str;    (* pd.ExcelFile(path).sheet_names *)
  pd_read_excel : Path -> str -> exn + DataFrame
}.

Section Processor.
Context {L : Libraries}.
Variable self : DocumentProcessor.

Definition open_with {A} (reader : Path -> exn + A) (p : Path) : M A :=
  _ <- emit (FileRead (path_str p)) ;; lift (reader p).

Definition _read_pdf (file_path : Path) : M (str * list DataFrame) :=
  pages <- open_with PdfReader file_path ;;
  foldM (fun (acc : str * list DataFrame) page =>
           let '(text, tbls) := acc in
           t <- lift (extract_text page) ;;
           let text := text ++ t ++ [LF] in
           try_except
             (page_tables <- lift (_extract_tables_from_pdf_page page) ;;
              ret (text, tbls ++ page_tables))
             (fun e =>
                _ <- emit (LogWarning
                             (lit "Error extracting tables from page: "
                              ++ exn_text e)) ;;
                ret (text, tbls)))
        ([], []) pages.

Definition _read_docx (file_path : Path) : M (str * list DataFrame) :=
  doc <- open_with docx_Document file_path ;;
  let text := flat_map (fun para => para ++ [LF]) (paragraphs doc) in
  tbls <- foldM (fun (tbls : list DataFrame) (data : list (list str)) =>
                   try_except
                     match data with
                     | [] => ret tbls
                     | header :: body =>
                       df <- lift (pd_DataFrame body header) ;;
                       ret (tbls ++ [df])
                     end
                     (fun e =>
                        _ <- emit (LogWarning
                                     (lit "Error processing table: "
                                      ++ exn_text e)) ;;
                        ret tbls))
                [] (tables doc) ;;
  ret (text, tbls).

Definition _read_excel (file_path : Path) : M (str * list DataFrame) :=
  sheet_names <- open_with pd_ExcelFile file_path ;;
  foldM (fun (acc : str * list DataFrame) sheet_name =>
           let '(text, all_sheets) := acc in
           df <- lift (pd_read_excel file_path sheet_name) ;;
           ret (text ++ LF :: lit "工作表: " ++ sheet_name ++ [LF]
                     ++ to_string df ++ [LF],
                all_sheets ++ [df]))
        ([], []) sheet_names.

Definition _process_tables (tbls : list DataFrame) : M str :=
  r <- foldM (fun (acc : str * N) df =>
                let '(text, i) := acc in
                cols <- lift (join_labels (lit ", ") 0 (columns df)) ;;
                ret (text ++ LF :: lit "表格 " ++ str_of_N i ++ lit ":" ++ [LF]
                          ++ lit "欄位: " ++ cols ++ [LF]
                          ++ to_string df ++ [LF],
                     N.succ i))
             ([], 1%N) tbls ;;
  ret (fst r).

(** The dispatch on the lower-cased suffix. *)
Definition read_document (suffix : str) (file_path : Path)
  : M (str * list DataFrame) :=
  if str_eqb suffix (lit ".pdf") then _read_pdf file_path
  else if str_eqb suffix (lit ".docx") then _read_docx file_path
  else if str_eqb suffix (lit ".xlsx") then _read_excel file_path
  else raise (Exn ValueError (lit "Unsupported file type: " ++ suffix)).

Definition process_document (file_path : Path) : M (list str * Metadata) :=
  try_except
    (let suffix := lower (path_suffix file_path) in
     let metadata :=
       MkMetadata (path_name file_path) suffix now_isoformat 0 0 in
     '(text, tbls) <- read_document suffix file_path ;;
     table_texts <- _process_tables tbls ;;
     let all_text := text ++ LF :: table_texts in
     let chunks := _split_text self all_text in
     let metadata :=
       MkMetadata (file_name metadata) (file_type metadata)
                  (process_time metadata) (Z.of_nat (List.length tbls))
                  (total_chunks metadata) in
     let metadata :=
       MkMetadata (file_name metadata) (file_type metadata)
                  (process_time metadata) (tables_found metadata)
                  (Z.of_nat (List.length chunks)) in
     ret (chunks, metadata))
    (fun e =>
       _ <- emit (LogError (lit "Error processing document: " ++ exn_text e)) ;;
       raise e).

End Processor.

End Pipeline.
Import Pipeline.

(** * Vocabulary of the statements *)

(** A line without line feed, as [split('\n')] produces them. *)
Definition no_lf (l : str) : Prop := ~ In LF l.

(** A heading line in the words of the specification: the line itself
    starts with a Chinese numeral and 、, a decimal number and a dot, or
    第, a Chinese numeral and 章. *)
Definition is_section_start (line : str) : bool :=
  match re_match_ heading_alternatives line with
  | Some _ => true
  | None => false
  end.

(** The lines of a text that are not blank, each trimmed. *)
Definition nonblank_lines (s : str) : list str :=
  map strip (filter (fun l => negb (blank l)) (split_lines s)).

(** The share of one chunk in the list of lines: the empty lines that
    were dropped before it, then the run of lines that it joins. *)
Definition segment : Type := (list str * list str)%type.

Definition chunk_of (g : segment) : str := strip (join_lines (snd g)).

Definition segment_ok (g : segment) : Prop :=
  Forall (eq []) (fst g) /\ snd g <> [].

Definition covered (segs : list segment) : list str :=
  flat_map (fun g => fst g ++ snd g) segs.

(** The buffer holds the run [R] joined, possibly behind one line feed. *)
Definition buffer_of (R : list str) (cur : str) : Prop :=
  (R = [] /\ cur = [])
  \/ (R <> [] /\ cur <> []
      /\ (cur = join_lines R \/ cur = LF :: join_lines R)).

(** What the scan keeps true of the lines [P] read so far. *)
Definition scan_inv (P : list str) (st : scan_state) : Prop :=
  exists (segs : list segment) (G R : list str),
    P = covered segs ++ G ++ R
    /\ Forall segment_ok segs
    /\ Forall (eq []) G
    /\ fst st = map chunk_of segs
    /\ buffer_of R (snd st).

(** Position of a keyword in a keyword list. *)
Fixpoint index_of (kw : str) (kws : list str) : nat :=
  match kws with
  | [] => 0
  | k :: kws' => if str_eqb kw k then 0 else S (index_of kw kws')
  end.

Definition keyword_rank (kw : str) : nat := index_of kw esg_keywords.

(** Where a visited match stands: rank of its keyword, start in the text. *)
Definition visit_key (km : str * re_match) : nat * nat :=
  (keyword_rank (fst km), m_start (snd km)).

Definition lex_lt (a b : nat * nat) : Prop :=
  fst a < fst b \/ (fst a = fst b /\ snd a < snd b).

(** The visits of two nested loops, over keywords and over the matches
    found for each, and the key of a visit for a ranking of keywords. *)
Definition visits (found : str -> list re_match) (kws : list str)
  : list (str * re_match) :=
  flat_map (fun kw => map (pair kw) (found kw)) kws.

Definition key_of (rank : str -> nat) (km : str * re_match) : nat * nat :=
  (rank (fst km), m_start (snd km)).

(** ** Inputs of the examples *)

Definition heading_input : str := lit "內容A" ++ LF :: lit "第二章 發展".

Definition chapters_input : str :=
  lit "第一章 緣起" ++ LF :: lit "內容A" ++ LF :: lit "第二章 發展"
      ++ LF :: lit "內容B".

Definition metrics_input : str := lit "員工人數共 1200 人，碳排放減少 15%。".

(** A short text: a heading on its first line, then one line of content. *)
Definition short_input : str := lit "第一章 緣起" ++ LF :: lit " 內容A ".

(** A number at the end of a line, its unit on the next line. *)
Definition wrapped_input : str :=
  lit "員工 12" ++ LF :: lit "人均薪資 5 萬".

Definition order_input : str := lit "環境 1 員工 2".

(** ** A small world to run the pipeline in *)

Module Toy.

(** The part of a name from its last dot on. *)
Fixpoint suffix_of (name : str) : option str :=
  match name with
  | [] => None
  | c :: name' =>
    match suffix_of name' with
    | Some sfx => Some sfx
    | None => if N.eqb c 46 then Some name else None
    end
  end.

Definition ascii_lower (s : str) : str :=
  map (fun c => if inrange 65 90 c then (c + 32)%N else c) s.

Definition table : Type := (list str * list (list str))%type.

Definition render (t : table) : str :=
  join_lines (map (fun row => List.concat (map (fun cell => 32%N :: cell) row))
                  (fst t :: snd t)).

(** Every path holds the same Word document: two paragraphs, one table. *)
Definition document : docx_document :=
  DocxDocument [lit "一、總則"; lit "員工人數共 1200 人"]
               [[[lit "項目"; lit "數值"]; [lit "員工"; lit "1200"]]].

#[global] Instance libraries : Libraries := {|
  Path := str;
  path_name := fun p => p;
  path_suffix := fun p => match suffix_of p with Some x => x | None => [] end;
  path_str := fun p => p;
  lower := ascii_lower;
  now_isoformat := lit "2024-01-01T00:00:00";
  DataFrame := table;
  columns := fun t => map StrLabel (fst t);
  to_string := render;
  pd_DataFrame := fun body header => inr (header, body);
  Page := str;
  PdfReader := fun _ => inr [lit "第一章 緣起"];
  extract_text := fun page => inr page;
  _extract_tables_from_pdf_page :=
    fun _ => inl (Exn AttributeError (lit "no such attribute"));
  docx_Document := fun _ => inr document;
  pd_ExcelFile := fun _ => inr [];
  pd_read_excel := fun _ _ => inl (Exn OtherException (lit "no sheet"))
|}.

Definition docx_path : str := lit "report.DOCX".
Definition txt_path : str := lit "notes.txt".

Definition docx_run : M (list str * Metadata) :=
  Eval vm_compute in process_document default_processor docx_path.

Definition docx_events : list event := fst docx_run.

Definition docx_chunks : list str :=
  match snd docx_run with inr (chunks, _) => chunks | inl _ => [] end.

Definition docx_metadata : Metadata :=
  match snd docx_run with
  | inr (_, md) => md
  | inl _ => MkMetadata [] [] [] 0 0
  end.

End Toy.

(** ** Vocabulary of the further properties *)

(** A chunk is within the bound, or it is one line of the text trimmed. *)
Definition chunk_within (limit : Z) (lines : list str) (chunk : str) : Prop :=
  (len chunk <= limit + 1)%Z
  \/ exists line, In line lines /\ chunk = strip line.

Definition buffer_within (limit : Z) (lines : list str) (cur : str) : Prop :=
  cur = [] \/ (len cur <= limit + 1)%Z \/ In cur lines.

(** The scan has flushed a chunk or holds a buffer. *)
Definition started (st : scan_state) : Prop := fst st <> [] \/ snd st <> [].

(** A declarative reading of the patterns: [Matches r s s'] when [r]
    can read input from the matcher state [s] and leave the state [s'].
    It says which texts a pattern accepts, not which of them the
    matcher prefers. *)
Inductive Matches : regex -> mstate -> mstate -> Prop :=
| M_eps : forall s, Matches Eps s s
| M_class : forall p s c t,
    rest s = c :: t -> p c = true ->
    Matches (Class p) s (MState t (caps s))
| M_seq : forall a b s s1 s2,
    Matches a s s1 -> Matches b s1 s2 -> Matches (Seq a b) s s2
| M_alt_l : forall a b s s1, Matches a s s1 -> Matches (Alt a b) s s1
| M_alt_r : forall a b s s1, Matches b s s1 -> Matches (Alt a b) s s1
| M_star_stop : forall g a s, Matches (Star g a) s s
| M_star_more : forall g a s s1 s2,
    Matches a s s1 -> Matches (Star g a) s1 s2 -> Matches (Star g a) s s2
| M_group : forall i a s s1,
    Matches a s s1 ->
    Matches (Group i a) s
            (MState (rest s1) ((i, consumed (rest s) (rest s1)) :: caps s1)).

(** Every character class of the pattern lies within [P]. *)
Fixpoint classes_within (P : char -> bool) (r : regex) : Prop :=
  match r with
  | Eps => True
  | Class p => forall c, p c = true -> P c = true
  | Seq a b | Alt a b => classes_within P a /\ classes_within P b
  | Star _ a | Group _ a => classes_within P a
  end.

(** 。, the full stop that ends a sentence. *)
Definition full_stop : char := 12290%N.

(** The first candidate of the example sentence. *)
Definition example_candidate : candidate :=
  Candidate (lit "員工") (lit "員工人數共 1200 人") (Some (lit "1200")) None.

(** ** Vocabulary of the reader properties *)

Section ReaderVocabulary.
Context {L : Libraries}.

(** The turn of the page loop of [_read_pdf]. *)
Definition pdf_page_step (acc : str * list DataFrame) (page : Page)
  : M (str * list DataFrame) :=
  let '(text, tbls) := acc in
  t <- lift (extract_text page) ;;
  let text := text ++ t ++ [LF] in
  try_except
    (page_tables <- lift (_extract_tables_from_pdf_page page) ;;
     ret (text, tbls ++ page_tables))
    (fun e =>
       _ <- emit (LogWarning
                    (lit "Error extracting tables from page: "
                     ++ exn_text e)) ;;
       ret (text, tbls)).

(** What one page adds: its text and a line feed, the tables found on
    it, and a warning when the table extraction raised. *)
Definition page_text (page : Page) : str :=
  match extract_text page with inr t => t ++ [LF] | inl _ => [] end.

Definition page_tables (page : Page) : list DataFrame :=
  match _extract_tables_from_pdf_page page with
  | inr tbls => tbls
  | inl _ => []
  end.

Definition page_warnings (page : Page) : list event :=
  match _extract_tables_from_pdf_page page with
  | inr _ => []
  | inl e => [LogWarning (lit "Error extracting tables from page: "
                          ++ exn_text e)]
  end.

(** The turn of the table loop of [_read_docx]. *)
Definition docx_table_step (tbls : list DataFrame) (data : list (list str))
  : M (list DataFrame) :=
  try_except
    match data with
    | [] => ret tbls
    | header :: body =>
      df <- lift (pd_DataFrame body header) ;;
      ret (tbls ++ [df])
    end
    (fun e =>
       _ <- emit (LogWarning (lit "Error processing table: " ++ exn_text e)) ;;
       ret tbls).

(** What one Word table adds: a frame when it has rows and the frame
    could be built, a warning when building it raised. *)
Definition table_frames (data : list (list str)) : list DataFrame :=
  match data with
  | [] => []
  | header :: body =>
    match pd_DataFrame body header with inr df => [df] | inl _ => [] end
  end.

Definition table_warnings (data : list (list str)) : list event :=
  match data with
  | [] => []
  | header :: body =>
    match pd_DataFrame body header with
    | inr _ => []
    | inl e => [LogWarning (lit "Error processing table: " ++ exn_text e)]
    end
  end.

(** The turn of the sheet loop of [_read_excel]. *)
Definition excel_sheet_step (file_path : Path) (acc : str * list DataFrame)
           (sheet_name : str) : M (str * list DataFrame) :=
  let '(text, all_sheets) := acc in
  df <- lift (pd_read_excel file_path sheet_name) ;;
  ret (text ++ LF :: lit "工作表: " ++ sheet_name ++ [LF]
            ++ to_string df ++ [LF],
       all_sheets ++ [df]).

(** The text written for one sheet. *)
Definition sheet_block (sheet : str * DataFrame) : str :=
  LF :: lit "工作表: " ++ fst sheet ++ [LF] ++ to_string (snd sheet) ++ [LF].

(** The turn of the loop of [_process_tables]. *)
Definition process_table_step (acc : str * N) (df : DataFrame) : M (str * N) :=
  let '(text, i) := acc in
  cols <- lift (join_labels (lit ", ") 0 (columns df)) ;;
  ret (text ++ LF :: lit "表格 " ++ str_of_N i ++ lit ":" ++ [LF]
            ++ lit "欄位: " ++ cols ++ [LF]
            ++ to_string df ++ [LF],
       N.succ i).

Definition is_str_label (l : label) : Prop :=
  match l with StrLabel _ => True | OtherLabel _ => False end.

Definition label_text (l : label) : str :=
  match l with StrLabel s => s | OtherLabel _ => [] end.

(** [sep.join(ss)] on strings. *)
Fixpoint join_with (sep : str) (ss : list str) : str :=
  match ss with
  | [] => []
  | [s] => s
  | s :: ss' => s ++ sep ++ join_with sep ss'
  end.

(** The text written for the table numbered [i]. *)
Definition table_block (i : N) (df : DataFrame) : str :=
  LF :: lit "表格 " ++ str_of_N i ++ lit ":" ++ [LF]
     ++ lit "欄位: " ++ join_with (lit ", ") (map label_text (columns df))
     ++ [LF] ++ to_string df ++ [LF].

Fixpoint table_blocks (i : N) (tbls : list DataFrame) : str :=
  match tbls with
  | [] => []
  | df :: tbls' => table_block i df ++ table_blocks (N.succ i) tbls'
  end.

End ReaderVocabulary.

Definition is_warning (ev : event) : Prop :=
  match ev with LogWarning _ => True | _ => False end.

Definition supported (suffix : str) : Prop :=
  In suffix [lit ".pdf"; lit ".docx"; lit ".xlsx"].

(** ** A second small world: spreadsheets, one with a numeric header *)

Module Office.

Definition frame : Type := (list label * list (list str))%type.

Definition render (t : frame) : str :=
  join_lines (map (fun row => List.concat (map (fun cell => 32%N :: cell) row))
                  (map label_text (fst t) :: snd t)).

Definition staff : frame :=
  ([StrLabel (lit "部門"); StrLabel (lit "人數")],
   [[lit "研發"; lit "120"]; [lit "製造"; lit "1080"]]).

(** The second header cell of this sheet is the number 2023. *)
Definition emissions : frame :=
  ([StrLabel (lit "項目"); OtherLabel (lit "int")],
   [[lit "碳排"; lit "15"]]).

Definition libraries : Libraries := {|
  Path := str;
  path_name := fun p => p;
  path_suffix :=
    fun p => match Toy.suffix_of p with Some x => x | None => [] end;
  path_str := fun p => p;
  lower := Toy.ascii_lower;
  now_isoformat := lit "2024-01-01T00:00:00";
  DataFrame := frame;
  columns := fun t => fst t;
  to_string := render;
  pd_DataFrame := fun body header => inr (map StrLabel header, body);
  Page := str;
  PdfReader := fun _ => inl (Exn OtherException (lit "EOF marker not found"));
  extract_text := fun page => inr page;
  _extract_tables_from_pdf_page :=
    fun _ => inl (Exn AttributeError (lit "no such attribute"));
  docx_Document := fun _ => inl (Exn OtherException (lit "Package not found"));
  pd_ExcelFile :=
    fun p => if str_eqb p (lit "broken.xlsx")
             then inr [lit "人力"; lit "壞"; lit "排放"]
             else if str_eqb p (lit "staff.xlsx")
                  then inr [lit "人力"]
                  else inr [lit "人力"; lit "排放"];
  pd_read_excel :=
    fun _ name => if str_eqb name (lit "壞")
                  then inl (Exn OtherException (lit "cannot read sheet"))
                  else if str_eqb name (lit "排放")
                       then inr emissions else inr staff
|}.

End Office.

(** Paths and pages of the example runs. *)
Module Runs.

Definition pdf_path : str := lit "report.pdf".
Definition pdf_pages : list str := [lit "第一章 緣起"].
Definition staff_workbook : str := lit "staff.xlsx".
Definition esg_workbook : str := lit "esg.xlsx".
Definition broken_workbook : str := lit "broken.xlsx".
Definition bad_sheet : str := lit "壞".

End Runs.

(** What the second world answers in the example runs. *)
Definition office_pdf_error : exn :=
  Exn OtherException (lit "EOF marker not found").

Definition esg_read : M (str * list Office.frame) :=
  Eval vm_compute in
    @read_document Office.libraries (lit ".xlsx") Runs.esg_workbook.

Definition esg_text : str :=
  match snd esg_read with inr (text, _) => text | inl _ => [] end.

(** The number written by a string of decimal digits. *)
Definition decimal_value (s : str) : N :=
  fold_left (fun v c => (10 * v + (c - 48))%N) s 0%N.

(** * Properties *)

(** ** Lines, joins and trimming *)

Lemma truthy_true (s : str) : truthy s = true <-> s <> [].
Proof. destruct s; simpl; split; congruence. Qed.

Lemma split_lines_not_nil (s : str) : split_lines s <> [].
Proof.
  induction s as [|c s IH]; simpl; [discriminate|].
  destruct (N.eqb c LF); [discriminate|].
  destruct (split_lines s); discriminate.
Qed.

Lemma split_lines_no_lf (s : str) : Forall no_lf (split_lines s).
Proof.
  induction s as [|c s IH]; simpl.
  - constructor; [intros []|constructor].
  - destruct (N.eqb_spec c LF) as [->|Hc].
    + constructor; [intros []|exact IH].
    + destruct (split_lines s) as [|l ls].
      * constructor; [|constructor]. intros [H|[]]. congruence.
      * inversion IH as [|? ? Hl Hls]; subst. constructor; [|exact Hls].
        intros [H|H]; [congruence|exact (Hl H)].
Qed.

Lemma join_lines_cons2 (a b : str) (ls : list str) :
  join_lines (a :: b :: ls) = a ++ LF :: join_lines (b :: ls).
Proof. reflexivity. Qed.

Lemma join_split (s : str) : join_lines (split_lines s) = s.
Proof.
  induction s as [|c s IH]; simpl; [reflexivity|].
  destruct (N.eqb_spec c LF) as [->|Hc].
  - pose proof (split_lines_not_nil s) as Hn.
    destruct (split_lines s) as [|l ls]; [congruence|].
    rewrite join_lines_cons2, IH. reflexivity.
  - pose proof (split_lines_not_nil s) as Hn.
    destruct (split_lines s) as [|l ls]; [congruence|].
    destruct ls as [|l' ls].
    + simpl in *. congruence.
    + rewrite join_lines_cons2 in *. rewrite <- IH. reflexivity.
Qed.

Lemma split_lines_single (l : str) : no_lf l -> split_lines l = [l].
Proof.
  induction l as [|c l IH]; intros H; simpl; [reflexivity|].
  destruct (N.eqb_spec c LF) as [->|Hc].
  - exfalso. apply H. left. reflexivity.
  - rewrite IH; [reflexivity|]. intros Hin. apply H. right. exact Hin.
Qed.

Lemma split_lines_app_lf (l s : str) :
  no_lf l -> split_lines (l ++ LF :: s) = l :: split_lines s.
Proof.
  induction l as [|c l IH]; intros H; simpl; [reflexivity|].
  destruct (N.eqb_spec c LF) as [->|Hc].
  - exfalso. apply H. left. reflexivity.
  - rewrite IH; [reflexivity|]. intros Hin. apply H. right. exact Hin.
Qed.

Lemma split_join (ls : list str) :
  ls <> [] -> Forall no_lf ls -> split_lines (join_lines ls) = ls.
Proof.
  induction ls as [|l ls IH]; intros Hne Hall; [congruence|].
  inversion Hall as [|? ? Hl Hls]; subst.
  destruct ls as [|l' ls].
  - simpl. apply split_lines_single. exact Hl.
  - rewrite join_lines_cons2, split_lines_app_lf by exact Hl.
    rewrite IH; [reflexivity|discriminate|exact Hls].
Qed.

Lemma join_lines_app (a b : list str) :
  a <> [] -> b <> [] ->
  join_lines (a ++ b) = join_lines a ++ LF :: join_lines b.
Proof.
  induction a as [|x a IH]; intros Ha Hb; [congruence|].
  destruct a as [|y a].
  - destruct b as [|z b]; [congruence|]. reflexivity.
  - change ((x :: y :: a) ++ b) with (x :: y :: (a ++ b)).
    rewrite !join_lines_cons2.
    change (y :: a ++ b) with ((y :: a) ++ b).
    rewrite IH by (discriminate || assumption).
    rewrite <- app_assoc. reflexivity.
Qed.

(** ** The heading branch of the chunker *)

Lemma run_seq_class (R : Type) (p : char -> bool) (r : regex) (s : mstate)
      (k : mstate -> option R) :
  run (Seq (Class p) r) s k =
  match rest s with
  | c :: t => if p c then run r (MState t (caps s)) k else None
  | [] => None
  end.
Proof. reflexivity. Qed.

(** The pattern asks for a line feed first. *)
Lemma section_pattern_needs_lf (line : str) (m : re_match) :
  re_match_ section_pattern line = Some m -> exists t, line = LF :: t.
Proof.
  unfold re_match_, match_at, section_pattern, Chr.
  rewrite run_seq_class. simpl rest.
  destruct line as [|c t]; [discriminate|].
  destruct (N.eqb_spec LF c) as [<-|Hc]; [|discriminate].
  intros _. exists t. reflexivity.
Qed.

(** No line produced by [split('\n')] matches it. *)
Lemma section_pattern_dead (line : str) :
  no_lf line -> re_match_ section_pattern line = None.
Proof.
  intros Hl.
  destruct (re_match_ section_pattern line) as [m|] eqn:E; [|reflexivity].
  destruct (section_pattern_needs_lf _ E) as [t ->].
  exfalso. apply Hl. left. reflexivity.
Qed.

(** On a line without line feed the step is the size test alone. *)
Lemma split_step_no_lf (self : DocumentProcessor) (chunks : list str)
      (current_chunk line : str) :
  no_lf line ->
  split_step self (chunks, current_chunk) line =
  if (len current_chunk + len line >? chunk_size self - chunk_overlap self)%Z
  then ((if truthy current_chunk
         then chunks ++ [strip current_chunk] else chunks), line)
  else (chunks, current_chunk ++ LF :: line).
Proof.
  intros Hl. unfold split_step.
  rewrite (section_pattern_dead Hl). reflexivity.
Qed.

(** C1.  The heading line 第二章 發展 is read while the buffer holds 內容A:
    the buffer is not flushed, the heading is appended to it, and the
    text comes back as one chunk with the heading in its middle.  No
    line of any text matches the pattern of the heading branch. *)
Theorem C1_heading_line_joins_open_chunk :
  (split_lines heading_input = [lit "內容A"; lit "第二章 發展"]
   /\ is_section_start (lit "第二章 發展") = true
   /\ scan default_processor [lit "內容A"] ([], []) = ([], LF :: lit "內容A")
   /\ truthy (LF :: lit "內容A") = true
   /\ split_step default_processor ([], LF :: lit "內容A") (lit "第二章 發展")
      = ([], LF :: heading_input)
   /\ _split_text default_processor heading_input = [heading_input])
  /\ forall (text line : str),
       In line (split_lines text) -> re_match_ section_pattern line = None.
Proof.
  split.
  - vm_compute. repeat split; reflexivity.
  - intros text line Hin. apply section_pattern_dead.
    pose proof (split_lines_no_lf text) as H.
    rewrite Forall_forall in H. apply H. exact Hin.
Qed.

(** C2.  With chunk_size 1000 and chunk_overlap 200 the two-chapter text
    is returned as a single chunk, the whole text, and not as the two
    chunks of the example. *)
Theorem C2_two_chapters_one_chunk :
  chunk_size default_processor = 1000%Z
  /\ chunk_overlap default_processor = 200%Z
  /\ _split_text default_processor chapters_input = [chapters_input]
  /\ _split_text default_processor chapters_input
     <> [lit "第一章 緣起" ++ LF :: lit "內容A";
         lit "第二章 發展" ++ LF :: lit "內容B"].
Proof. vm_compute. repeat split; try reflexivity. discriminate. Qed.

(** C5.  The empty text has the single line [""]; unless the size limit
    is negative that line is appended to the buffer behind a line feed,
    so the buffer is flushed and the result is one empty chunk. *)
Theorem C5_empty_text_one_empty_chunk (self : DocumentProcessor) :
  _split_text self [] =
  if (0 >? chunk_size self - chunk_overlap self)%Z then [] else [[]].
Proof.
  unfold _split_text, scan. cbn [split_lines fold_left].
  rewrite split_step_no_lf by (intros []).
  change (len [] + len [])%Z with 0%Z.
  destruct (0 >? chunk_size self - chunk_overlap self)%Z; reflexivity.
Qed.

(** ** Texts below the size limit *)

Lemma len_app (a b : str) : len (a ++ b) = (len a + len b)%Z.
Proof. unfold len. rewrite length_app. lia. Qed.

Lemma len_cons (c : char) (a : str) : len (c :: a) = (1 + len a)%Z.
Proof. unfold len. simpl List.length. lia. Qed.

Lemma len_nonneg (a : str) : (0 <= len a)%Z.
Proof. unfold len. lia. Qed.

Lemma join_lines_prefix_len (a b : list str) :
  (len (join_lines a) <= len (join_lines (a ++ b)))%Z.
Proof.
  destruct a as [|x a]; [apply len_nonneg|].
  destruct b as [|y b]; [rewrite app_nil_r; lia|].
  rewrite join_lines_app by discriminate.
  rewrite len_app, len_cons.
  pose proof (len_nonneg (join_lines (y :: b))). lia.
Qed.

Lemma strip_lf (s : str) : strip (LF :: s) = strip s.
Proof. reflexivity. Qed.

Lemma scan_cons (self : DocumentProcessor) (line : str) (lines : list str)
      (st : scan_state) :
  scan self (line :: lines) st = scan self lines (split_step self st line).
Proof. reflexivity. Qed.

Section BelowLimit.
Variable self : DocumentProcessor.

(** While the text read so far fits the limit, every line is appended. *)
Lemma scan_within_limit (lines done : list str) (cur : str) :
  Forall no_lf lines ->
  (done = [] /\ cur = []) \/ (done <> [] /\ cur = LF :: join_lines done) ->
  lines <> [] ->
  (len (join_lines (done ++ lines)) <= chunk_size self - chunk_overlap self)%Z ->
  scan self lines ([], cur) = ([], LF :: join_lines (done ++ lines)).
Proof.
  revert done cur.
  induction lines as [|line lines IH]; intros done cur Hlf Hcur Hne Hlen;
    [congruence|].
  inversion Hlf as [|? ? Hline Hrest]; subst.
  rewrite scan_cons, split_step_no_lf by exact Hline.
  assert (Hfit : (len cur + len line
                  <= chunk_size self - chunk_overlap self)%Z).
  { pose proof (join_lines_prefix_len (done ++ [line]) lines) as Hp.
    rewrite <- app_assoc in Hp. cbn [app] in Hp.
    destruct Hcur as [[-> ->]|[Hd ->]].
    - cbn [app] in Hp, Hlen. change (join_lines [line]) with line in Hp.
      change (len []) with 0%Z. lia.
    - rewrite join_lines_app in Hp by (assumption || discriminate).
      rewrite len_app, len_cons in Hp. change (join_lines [line]) with line in Hp.
      rewrite len_cons. lia. }
  destruct (Z.gtb_spec (len cur + len line)
                       (chunk_size self - chunk_overlap self)) as [Hgt|_];
    [lia|]. cbv iota.
  assert (Hcur' : cur ++ LF :: line = LF :: join_lines (done ++ [line])).
  { destruct Hcur as [[-> ->]|[Hd ->]].
    - reflexivity.
    - rewrite join_lines_app by (assumption || discriminate). reflexivity. }
  destruct lines as [|line' lines'].
  - rewrite Hcur'. reflexivity.
  - replace (done ++ line :: line' :: lines')
      with ((done ++ [line]) ++ line' :: lines')
      by (rewrite <- app_assoc; reflexivity).
    apply IH.
    + exact Hrest.
    + right. split; [|exact Hcur']. destruct done; discriminate.
    + discriminate.
    + rewrite <- app_assoc. exact Hlen.
Qed.

End BelowLimit.

(** C4, as the claim words it, fails: two lines of 450 characters make
    a text of 901 characters, shorter than chunk_size 1000 and free of
    headings, that is cut in two. *)
Lemma C4_counterexample :
  let text := repeat 97%N 450 ++ LF :: repeat 98%N 450 in
  (len text < chunk_size default_processor)%Z
  /\ forallb (fun l => negb (is_section_start l)) (split_lines text) = true
  /\ _split_text default_processor text = [repeat 97%N 450; repeat 98%N 450]
  /\ _split_text default_processor text <> [strip text].
Proof.
  vm_compute. repeat split; try reflexivity. discriminate.
Qed.

(** C4, amended.  A text no longer than chunk_size - chunk_overlap, with
    no section-heading line other than possibly its first line, is
    returned as exactly one chunk, the text trimmed at both ends. *)
Theorem C4_text_within_limit_single_chunk
        (self : DocumentProcessor) (text : str) :
  (len text <= chunk_size self - chunk_overlap self)%Z ->
  Forall (fun line => is_section_start line = false) (tl (split_lines text)) ->
  _split_text self text = [strip text].
Proof.
  intros Hlen _. unfold _split_text.
  match goal with
  | |- flush_last ?x = _ => assert (H : x = ([], LF :: text))
  end.
  { etransitivity.
    - apply (@scan_within_limit self (split_lines text) [] []).
      + apply split_lines_no_lf.
      + left. split; reflexivity.
      + apply split_lines_not_nil.
      + cbn [app]. rewrite join_split. exact Hlen.
    - cbn [app]. rewrite join_split. reflexivity. }
  rewrite H. cbn [flush_last truthy app]. rewrite strip_lf. reflexivity.
Qed.

Lemma C4_text_within_limit_witness :
  (len short_input <= chunk_size default_processor
                      - chunk_overlap default_processor)%Z
  /\ Forall (fun line => is_section_start line = false)
            (tl (split_lines short_input))
  /\ _split_text default_processor short_input = [strip short_input].
Proof.
  assert (H1 : (len short_input <= chunk_size default_processor
                                   - chunk_overlap default_processor)%Z)
    by (vm_compute; discriminate).
  assert (H2 : Forall (fun line => is_section_start line = false)
                      (tl (split_lines short_input))).
  { replace (split_lines short_input)
      with [lit "第一章 緣起"; lit " 內容A "] by (vm_compute; reflexivity).
    cbn [tl]. constructor; [vm_compute; reflexivity|constructor]. }
  split; [exact H1|]. split; [exact H2|].
  exact (@C4_text_within_limit_single_chunk default_processor short_input
           H1 H2).
Defined.

(** ** Trimming and the non-blank lines of a text *)

Lemma lstrip_blank (l : str) : blank l = true -> lstrip l = [].
Proof.
  induction l as [|c l IH]; simpl; [reflexivity|].
  destruct (isspace c); simpl; [exact IH|discriminate].
Qed.

Lemma lstrip_snoc (l : str) (c : char) :
  lstrip (l ++ [c]) = if blank l then lstrip [c] else lstrip l ++ [c].
Proof.
  induction l as [|x l IH]; [reflexivity|].
  cbn [app lstrip blank forallb]. destruct (isspace x); [exact IH|reflexivity].
Qed.

Lemma strip_space_cons (c : char) (l : str) :
  isspace c = true -> strip (c :: l) = strip l.
Proof. intros H. unfold strip. cbn [lstrip]. rewrite H. reflexivity. Qed.

Lemma strip_space_snoc (c : char) (l : str) :
  isspace c = true -> strip (l ++ [c]) = strip l.
Proof.
  intros H. unfold strip. rewrite lstrip_snoc.
  destruct (blank l) eqn:Hb.
  - cbn [lstrip]. rewrite H, (lstrip_blank _ Hb). reflexivity.
  - unfold rstrip. rewrite rev_unit. cbn [lstrip]. rewrite H. reflexivity.
Qed.

Lemma blank_snoc (c : char) (l : str) :
  blank (l ++ [c]) = blank l && isspace c.
Proof.
  unfold blank. rewrite forallb_app. simpl. rewrite andb_true_r. reflexivity.
Qed.

Lemma split_lines_snoc (s : str) (c : char) :
  split_lines (s ++ [c]) =
  if N.eqb c LF then split_lines s ++ [[]]
  else removelast (split_lines s) ++ [last (split_lines s) [] ++ [c]].
Proof.
  induction s as [|x s IH].
  - simpl. destruct (N.eqb c LF); reflexivity.
  - cbn [app split_lines]. rewrite IH.
    pose proof (split_lines_not_nil s) as Hn.
    destruct (N.eqb c LF), (N.eqb x LF); try reflexivity.
    + destruct (split_lines s) as [|l ls]; [congruence|]. reflexivity.
    + destruct (split_lines s) as [|l ls]; [congruence|]. reflexivity.
    + destruct (split_lines s) as [|l ls]; [congruence|].
      destruct ls as [|l' ls]; reflexivity.
Qed.

Lemma nonblank_lines_space_cons (c : char) (s : str) :
  isspace c = true -> nonblank_lines (c :: s) = nonblank_lines s.
Proof.
  intros H. unfold nonblank_lines. cbn [split_lines].
  destruct (N.eqb c LF); [reflexivity|].
  pose proof (split_lines_not_nil s) as Hn.
  destruct (split_lines s) as [|l ls]; [congruence|].
  cbn [filter blank forallb]. rewrite H. cbn [andb].
  change (forallb isspace l) with (blank l).
  destruct (blank l); cbn [negb map]; [reflexivity|].
  rewrite strip_space_cons by exact H. reflexivity.
Qed.

Lemma nonblank_lines_space_snoc (c : char) (s : str) :
  isspace c = true -> nonblank_lines (s ++ [c]) = nonblank_lines s.
Proof.
  intros H. unfold nonblank_lines. rewrite split_lines_snoc.
  destruct (N.eqb c LF).
  - rewrite filter_app, map_app. cbn. rewrite app_nil_r. reflexivity.
  - pose proof (split_lines_not_nil s) as Hn.
    rewrite (app_removelast_last [] Hn) at 3.
    rewrite !filter_app, !map_app. f_equal.
    cbn [filter]. rewrite blank_snoc, H, andb_true_r.
    destruct (blank (last (split_lines s) [])); cbn [negb map]; [reflexivity|].
    rewrite strip_space_snoc by exact H. reflexivity.
Qed.

Lemma nonblank_lines_lstrip (s : str) :
  nonblank_lines (lstrip s) = nonblank_lines s.
Proof.
  induction s as [|c s IH]; [reflexivity|].
  cbn [lstrip]. destruct (isspace c) eqn:H; [|reflexivity].
  rewrite nonblank_lines_space_cons by exact H. exact IH.
Qed.

Lemma nonblank_lines_drop_spaces (w s : str) :
  Forall (fun c => isspace c = true) w ->
  nonblank_lines (s ++ w) = nonblank_lines s.
Proof.
  revert s. induction w as [|c w IH]; intros s Hw.
  - rewrite app_nil_r. reflexivity.
  - inversion Hw as [|? ? Hc Hw']; subst.
    change (s ++ c :: w) with (s ++ [c] ++ w). rewrite app_assoc.
    rewrite IH by exact Hw'. apply nonblank_lines_space_snoc. exact Hc.
Qed.

Lemma lstrip_spaces_before (s : str) :
  exists w, s = w ++ lstrip s /\ Forall (fun c => isspace c = true) w.
Proof.
  induction s as [|c s [w [Hs Hw]]].
  - exists []. split; [reflexivity|constructor].
  - cbn [lstrip]. destruct (isspace c) eqn:H.
    + exists (c :: w). split; [cbn [app]; congruence|constructor; assumption].
    + exists []. split; [reflexivity|constructor].
Qed.

Lemma rstrip_spaces_after (s : str) :
  exists w, s = rstrip s ++ w /\ Forall (fun c => isspace c = true) w.
Proof.
  destruct (lstrip_spaces_before (rev s)) as [w [Hs Hw]].
  exists (rev w). split.
  - unfold rstrip. rewrite <- rev_app_distr, <- Hs, rev_involutive. reflexivity.
  - apply Forall_rev. exact Hw.
Qed.

Lemma nonblank_lines_rstrip (s : str) :
  nonblank_lines (rstrip s) = nonblank_lines s.
Proof.
  destruct (rstrip_spaces_after s) as [w [Hs Hw]].
  rewrite Hs at 2. symmetry. apply nonblank_lines_drop_spaces. exact Hw.
Qed.

(** Trimming a text keeps its non-blank lines. *)
Lemma nonblank_lines_strip (s : str) :
  nonblank_lines (strip s) = nonblank_lines s.
Proof.
  unfold strip. rewrite nonblank_lines_rstrip. apply nonblank_lines_lstrip.
Qed.

Lemma nonblank_lines_join (ls : list str) :
  ls <> [] -> Forall no_lf ls ->
  nonblank_lines (join_lines ls)
  = map strip (filter (fun l => negb (blank l)) ls).
Proof.
  intros Hne Hlf. unfold nonblank_lines. rewrite split_join by assumption.
  reflexivity.
Qed.

(** ** Chunks as runs of whole lines *)

Lemma covered_app (a b : list segment) : covered (a ++ b) = covered a ++ covered b.
Proof. unfold covered. apply flat_map_app. Qed.

Lemma covered_single (G R : list str) : covered [(G, R)] = G ++ R.
Proof. unfold covered. cbn [flat_map fst snd]. apply app_nil_r. Qed.

Lemma buffer_of_strip (R : list str) (cur : str) :
  buffer_of R cur -> R <> [] -> strip cur = strip (join_lines R).
Proof.
  intros [[HR _]|[_ [_ [->| ->]]]] Hne; [congruence|reflexivity|apply strip_lf].
Qed.

Lemma buffer_of_truthy (R : list str) (cur : str) :
  buffer_of R cur -> truthy cur = match R with [] => false | _ => true end.
Proof.
  intros [[-> ->]|[HR [Hc _]]]; [reflexivity|].
  destruct R; [congruence|]. apply truthy_true. exact Hc.
Qed.

(** Every turn of the loop either closes the buffer and restarts it
    with the line, or appends the line behind a line feed. *)
Lemma split_step_cases (self : DocumentProcessor) (chunks : list str)
      (cur line : str) :
  split_step self (chunks, cur) line
  = ((if truthy cur then chunks ++ [strip cur] else chunks), line)
  \/ split_step self (chunks, cur) line = (chunks, cur ++ LF :: line).
Proof.
  unfold split_step.
  destruct (re_match_ section_pattern line).
  - destruct (truthy cur); [left; reflexivity|].
    destruct (len cur + len line >? chunk_size self - chunk_overlap self)%Z;
      [left|right]; reflexivity.
  - destruct (len cur + len line >? chunk_size self - chunk_overlap self)%Z;
      [left|right]; reflexivity.
Qed.

Lemma scan_inv_init : scan_inv [] ([], []).
Proof.
  exists [], [], [].
  split; [reflexivity|]. split; [constructor|]. split; [constructor|].
  split; [reflexivity|]. left. split; reflexivity.
Qed.

(** Restarting the buffer with [line]. *)
Lemma buffer_restart (G : list str) (line : str) :
  Forall (eq []) G ->
  exists G' R', G ++ [line] = G' ++ R' /\ Forall (eq []) G' /\ buffer_of R' line.
Proof.
  intros HG. destruct line as [|c line].
  - exists (G ++ [[]]), []. rewrite app_nil_r. repeat split.
    + apply Forall_app. split; [exact HG|constructor; [reflexivity|constructor]].
    + left. split; reflexivity.
  - exists G, [c :: line]. repeat split; [exact HG|].
    right. repeat split; [discriminate|discriminate|left; reflexivity].
Qed.

Section ScanInvariant.
Variable self : DocumentProcessor.

Lemma scan_inv_step (P : list str) (st : scan_state) (line : str) :
  scan_inv P st -> scan_inv (P ++ [line]) (split_step self st line).
Proof.
  destruct st as [chunks cur].
  intros (segs & G & R & HP & Hsegs & HG & Hch & Hbuf).
  cbn [fst snd] in Hch, Hbuf.
  destruct (split_step_cases self chunks cur line) as [-> | ->].
  - (* the buffer is closed *)
    rewrite (buffer_of_truthy Hbuf).
    destruct R as [|r R].
    + destruct (buffer_restart line HG) as (G' & R' & HGR & HG' & Hb').
      exists segs, G', R'. repeat split; try assumption.
      rewrite HP, app_nil_r, <- app_assoc, HGR. reflexivity.
    + destruct (@buffer_restart [] line (Forall_nil _))
        as (G' & R' & HGR & HG' & Hb').
      exists (segs ++ [(G, r :: R)]), G', R'. repeat split; try assumption.
      * rewrite HP, covered_app, covered_single, <- HGR, <- !app_assoc.
        reflexivity.
      * apply Forall_app. split; [exact Hsegs|].
        constructor; [|constructor]. split; [exact HG|discriminate].
      * cbn [fst]. rewrite map_app, Hch. cbn [map]. unfold chunk_of at 3.
        cbn [snd]. rewrite (buffer_of_strip Hbuf) by discriminate.
        reflexivity.
  - (* the line is appended *)
    exists segs, G, (R ++ [line]). repeat split; try assumption.
    + rewrite HP, <- !app_assoc. reflexivity.
    + cbn [snd]. right.
      destruct Hbuf as [[-> ->]|[HR [Hc Hj]]].
      * repeat split; [discriminate|discriminate|right; reflexivity].
      * repeat split.
        -- destruct R; discriminate.
        -- destruct cur; [congruence|discriminate].
        -- destruct Hj as [-> | ->]; [left|right];
             rewrite join_lines_app by (assumption || discriminate);
             reflexivity.
Qed.

Lemma scan_inv_scan (lines P : list str) (st : scan_state) :
  scan_inv P st -> scan_inv (P ++ lines) (scan self lines st).
Proof.
  revert P st. induction lines as [|line lines IH]; intros P st H.
  - rewrite app_nil_r. exact H.
  - rewrite scan_cons.
    change (P ++ line :: lines) with (P ++ [line] ++ lines).
    rewrite app_assoc. apply IH. apply scan_inv_step. exact H.
Qed.

End ScanInvariant.

(** Closing the last buffer turns the invariant into the partition. *)
Lemma scan_inv_flush (P : list str) (st : scan_state) :
  scan_inv P st ->
  exists (segs : list segment) (gap_end : list str),
    P = covered segs ++ gap_end
    /\ Forall segment_ok segs
    /\ Forall (eq []) gap_end
    /\ flush_last st = map chunk_of segs.
Proof.
  destruct st as [chunks cur].
  intros (segs & G & R & HP & Hsegs & HG & Hch & Hbuf).
  cbn [fst snd] in Hch, Hbuf. cbn [flush_last].
  rewrite (buffer_of_truthy Hbuf).
  destruct R as [|r R].
  - exists segs, G. rewrite app_nil_r in HP. repeat split; assumption.
  - exists (segs ++ [(G, r :: R)]), []. repeat split.
    + rewrite HP, app_nil_r, covered_app, covered_single. reflexivity.
    + apply Forall_app. split; [exact Hsegs|].
      constructor; [|constructor]. split; [exact HG|discriminate].
    + constructor.
    + rewrite map_app, Hch. cbn [map]. unfold chunk_of at 3. cbn [snd].
      rewrite (buffer_of_strip Hbuf) by discriminate. reflexivity.
Qed.

Lemma empty_lines_not_kept (G : list str) :
  Forall (eq []) G -> filter (fun l => negb (blank l)) G = [].
Proof.
  induction 1 as [|x G Hx HG IH]; [reflexivity|].
  subst x. cbn. exact IH.
Qed.

Lemma nonblank_lines_of_segments (segs : list segment) :
  Forall segment_ok segs ->
  Forall no_lf (covered segs) ->
  flat_map nonblank_lines (map chunk_of segs)
  = map strip (filter (fun l => negb (blank l)) (covered segs)).
Proof.
  induction segs as [|[G R] segs IH]; intros Hok Hlf; [reflexivity|].
  inversion Hok as [|? ? [HG HR] Hok']; subst. cbn [fst snd] in HG, HR.
  unfold covered in Hlf |- *. cbn [flat_map map fst snd] in Hlf |- *.
  fold (covered segs) in Hlf |- *.
  apply Forall_app in Hlf. destruct Hlf as [HlfGR Hlf].
  apply Forall_app in HlfGR. destruct HlfGR as [_ HlfR].
  rewrite IH by assumption.
  rewrite !filter_app, !map_app, (empty_lines_not_kept HG). cbn [map app].
  f_equal. unfold chunk_of. cbn [snd].
  rewrite nonblank_lines_strip. apply nonblank_lines_join; assumption.
Qed.

(** The chunks of a text are the trimmed joins of its segments. *)
Lemma split_text_segments (self : DocumentProcessor) (text : str) :
  exists (segs : list segment) (gap_end : list str),
    split_lines text = covered segs ++ gap_end
    /\ Forall segment_ok segs
    /\ Forall (eq []) gap_end
    /\ _split_text self text = map chunk_of segs.
Proof.
  assert (Hinv : scan_inv (split_lines text)
                          (scan self (split_lines text) ([], []))).
  { apply (@scan_inv_scan self (split_lines text) [] ([], [])).
    apply scan_inv_init. }
  exact (scan_inv_flush Hinv).
Qed.

Lemma lstrip_head (s : str) :
  lstrip s = [] \/ exists c t, lstrip s = c :: t /\ isspace c = false.
Proof.
  induction s as [|c s IH]; [left; reflexivity|].
  cbn [lstrip]. destruct (isspace c) eqn:E; [exact IH|].
  right. exists c, s. split; [reflexivity|exact E].
Qed.

Lemma lstrip_idempotent (s : str) : lstrip (lstrip s) = lstrip s.
Proof.
  destruct (lstrip_head s) as [-> | [c [t [-> Hc]]]]; [reflexivity|].
  cbn [lstrip]. rewrite Hc. reflexivity.
Qed.

Lemma rstrip_cons_nonspace (c : char) (t : str) :
  isspace c = false -> rstrip (c :: t) = c :: rstrip t.
Proof.
  intros Hc. unfold rstrip. cbn [rev]. rewrite lstrip_snoc.
  destruct (blank (rev t)) eqn:B.
  - cbn [lstrip]. rewrite Hc, (lstrip_blank _ B). reflexivity.
  - rewrite rev_unit. reflexivity.
Qed.

Lemma rstrip_idempotent (s : str) : rstrip (rstrip s) = rstrip s.
Proof. unfold rstrip. rewrite rev_involutive, lstrip_idempotent. reflexivity. Qed.

Lemma strip_idempotent (s : str) : strip (strip s) = strip s.
Proof.
  unfold strip.
  destruct (lstrip_head s) as [-> | [c [t [-> Hc]]]]; [reflexivity|].
  rewrite (@rstrip_cons_nonspace c t Hc). cbn [lstrip]. rewrite Hc.
  rewrite <- (@rstrip_cons_nonspace c t Hc). apply rstrip_idempotent.
Qed.

(** No chunk keeps white space at either end. *)
Lemma split_text_chunks_trimmed (self : DocumentProcessor) (text : str) :
  Forall (fun chunk => strip chunk = chunk) (_split_text self text).
Proof.
  destruct (split_text_segments self text) as (segs & _ & _ & _ & _ & ->).
  apply Forall_map. apply Forall_forall. intros g _.
  apply strip_idempotent.
Qed.

(** C6.  A text of white space only is returned as one chunk that is
    empty: the buffer [" "] behind its line feed is not empty, its
    trimmed form is.  The other half of the claim holds: every chunk is
    its buffer trimmed, so trimming it again changes nothing. *)
Theorem C6_blank_text_empty_chunk :
  (_split_text default_processor (lit " ") = [[]]
   /\ _split_text default_processor (lit " " ++ LF :: lit "  ") = [[]]
   /\ Exists (fun chunk => strip chunk = [])
             (_split_text default_processor (lit " ")))
  /\ forall (self : DocumentProcessor) (text : str),
       Forall (fun chunk => strip chunk = chunk) (_split_text self text).
Proof.
  split.
  - vm_compute. repeat split; try reflexivity.
    constructor. reflexivity.
  - apply split_text_chunks_trimmed.
Qed.

(** C3.  The lines of the text split into, alternately, empty lines that
    are dropped and runs of consecutive lines; the chunks are, in order,
    the runs joined by line feeds and trimmed, so no chunk boundary
    falls inside a line.  The non-blank lines of the chunks, read in
    order and compared after trimming, are the non-blank lines of the
    text, each once and in the order of the text. *)
Theorem C3_chunks_are_runs_of_whole_lines
        (self : DocumentProcessor) (text : str) :
  (exists (segs : list segment) (gap_end : list str),
      split_lines text = covered segs ++ gap_end
      /\ Forall segment_ok segs
      /\ Forall (eq []) gap_end
      /\ _split_text self text = map chunk_of segs)
  /\ flat_map nonblank_lines (_split_text self text) = nonblank_lines text.
Proof.
  destruct (split_text_segments self text)
    as (segs & gap_end & HP & Hok & Hgap & Hfl).
  split.
  - exists segs, gap_end. repeat split; assumption.
  - pose proof (split_lines_no_lf text) as Hlf. rewrite HP in Hlf.
    apply Forall_app in Hlf. destruct Hlf as [Hlf _].
    rewrite Hfl, (nonblank_lines_of_segments Hok Hlf).
    unfold nonblank_lines at 1. rewrite HP, filter_app, map_app.
    rewrite (empty_lines_not_kept Hgap). cbn [map]. rewrite app_nil_r.
    reflexivity.
Qed.

(** ** Matches and their positions *)

(** Whatever the matcher answers was answered by its continuation. *)
Lemma star_iter_result (R : Type)
      (body : mstate -> (mstate -> option R) -> option R) :
  (forall s k x, body s k = Some x -> exists s', k s' = Some x) ->
  forall greedy k fuel s x,
    star_iter body greedy k fuel s = Some x -> exists s', k s' = Some x.
Proof.
  intros Hbody greedy k fuel.
  induction fuel as [|fuel IH]; intros s x H; cbn [star_iter] in H.
  - exists s. exact H.
  - destruct greedy.
    + destruct (body s _) as [y|] eqn:E.
      * injection H as ->. apply Hbody in E. destruct E as [s' E].
        destruct (Nat.ltb _ _); [|discriminate]. apply (IH _ _ E).
      * exists s. exact H.
    + destruct (k s) as [y|] eqn:Ek.
      * injection H as ->. exists s. exact Ek.
      * apply Hbody in H. destruct H as [s' H].
        destruct (Nat.ltb _ _); [|discriminate]. apply (IH _ _ H).
Qed.

Lemma run_result (R : Type) (r : regex) :
  forall (s : mstate) (k : mstate -> option R) (x : R),
    run r s k = Some x -> exists s', k s' = Some x.
Proof.
  induction r as [|p|a IHa b IHb|a IHa b IHb|greedy a IHa|i a IHa];
    intros s k x H; cbn [run] in H.
  - exists s. exact H.
  - destruct (rest s) as [|c t]; [discriminate|].
    destruct (p c); [|discriminate]. eexists. exact H.
  - apply IHa in H. destruct H as [s1 H]. apply (IHb _ _ _ H).
  - destruct (run a s k) as [y|] eqn:E.
    + injection H as ->. apply (IHa _ _ _ E).
    + apply (IHb _ _ _ H).
  - apply (@star_iter_result _ _ IHa) in H. exact H.
  - apply IHa in H. destruct H as [s1 H]. eexists. exact H.
Qed.

Lemma firstn_own_length (A : Type) (n : nat) (l : list A) :
  firstn (List.length (firstn n l)) l = firstn n l.
Proof.
  revert l. induction n as [|n IH]; intros [|x l]; simpl; try reflexivity.
  rewrite IH. reflexivity.
Qed.

(** A match found at offset [pos] starts there, and its text is the
    part of the input between its start and its end. *)
Lemma match_at_span (r : regex) (pos : nat) (s : str) (m : re_match) :
  match_at r pos s = Some m ->
  m_start m = pos /\ group0 m = firstn (m_end m - m_start m) s.
Proof.
  unfold match_at. intros H. apply run_result in H. destruct H as [s' H].
  injection H as <-. cbn [m_start m_end group0]. split; [reflexivity|].
  replace (pos + _ - pos) with (List.length (consumed s (rest s'))) by lia.
  unfold consumed. symmetry. apply firstn_own_length.
Qed.

Lemma skipn_succ_cons (A : Type) (n : nat) (l l' : list A) (x : A) :
  skipn n l = x :: l' -> skipn (S n) l = l'.
Proof.
  revert l. induction n as [|n IH]; intros [|y l] H; simpl in *; try discriminate.
  - congruence.
  - apply (IH _ H).
Qed.

Section FindIter.
Variable r : regex.
Variable text : str.

(** The matches of one scan, from offset [pos] on: each lies in the text
    at its start position, no start is before [pos], and the starts grow. *)
Lemma finditer_from_ordered (s : str) :
  forall pos skip,
    skipn pos text = s ->
    Forall (fun m => pos <= m_start m
                     /\ group0 m = firstn (m_end m - m_start m)
                                          (skipn (m_start m) text))
           (finditer_from r pos skip s)
    /\ StronglySorted (fun a b => m_start a < m_start b)
                      (finditer_from r pos skip s).
Proof.
  induction s as [|c s IH]; intros pos skip Hs.
  - destruct skip as [|skip]; cbn [finditer_from]; [|split; constructor].
    destruct (match_at r pos []) as [m|] eqn:E; [|split; constructor].
    destruct (match_at_span _ _ _ E) as [Hst Hg].
    split.
    + constructor; [|constructor].
      rewrite Hst, Hs. split; [lia|]. rewrite Hst in Hg. exact Hg.
    + constructor; constructor.
  - assert (Hnext : forall skip',
               Forall (fun m => S pos <= m_start m
                                /\ group0 m
                                   = firstn (m_end m - m_start m)
                                            (skipn (m_start m) text))
                      (finditer_from r (S pos) skip' s)
               /\ StronglySorted (fun a b => m_start a < m_start b)
                                 (finditer_from r (S pos) skip' s)).
    { intros skip'. apply IH. apply (skipn_succ_cons _ _ Hs). }
    assert (Hweak : forall skip',
               Forall (fun m => pos <= m_start m
                                /\ group0 m
                                   = firstn (m_end m - m_start m)
                                            (skipn (m_start m) text))
                      (finditer_from r (S pos) skip' s)).
    { intros skip'. destruct (Hnext skip') as [HF _].
      eapply Forall_impl; [|exact HF]. intros m [Hle Hg]. split; [lia|exact Hg]. }
    destruct skip as [|skip]; cbn [finditer_from].
    + destruct (match_at r pos (c :: s)) as [m|] eqn:E.
      * destruct (match_at_span _ _ _ E) as [Hst Hg].
        destruct (Hnext (m_end m - m_start m - 1)) as [HF HS].
        split.
        -- constructor; [|apply Hweak].
           rewrite Hst, Hs. split; [lia|]. rewrite Hst in Hg. exact Hg.
        -- constructor; [exact HS|].
           eapply Forall_impl; [|exact HF]. intros m' [Hle _]. lia.
      * destruct (Hnext 0) as [_ HS]. split; [apply Hweak|exact HS].
    + destruct (Hnext skip) as [_ HS]. split; [apply Hweak|exact HS].
Qed.

Lemma finditer_ordered :
  Forall (fun m => group0 m = firstn (m_end m - m_start m)
                                     (skipn (m_start m) text))
         (finditer r text)
  /\ StronglySorted (fun a b => m_start a < m_start b) (finditer r text).
Proof.
  destruct (@finditer_from_ordered text 0 0 eq_refl) as [HF HS].
  split; [|exact HS].
  eapply Forall_impl; [|exact HF]. intros m [_ Hg]. exact Hg.
Qed.

End FindIter.

(** ** Metric candidates: units and order *)

Lemma ngroups_Lit (s : str) : ngroups (Lit s) = 0.
Proof. induction s as [|c s IH]; simpl; [reflexivity|exact IH]. Qed.

(** Every keyword pattern has exactly one capturing group. *)
Lemma ngroups_keyword_pattern (kw : str) : ngroups (keyword_pattern kw) = 1.
Proof.
  unfold keyword_pattern. cbn [ngroups]. rewrite ngroups_Lit. reflexivity.
Qed.

Lemma unit_of_candidate (kw : str) (m : re_match) :
  unit (candidate_of kw m) = None.
Proof.
  unfold candidate_of. cbn [unit]. rewrite ngroups_keyword_pattern. reflexivity.
Qed.

(** C7.  On the example sentence the two candidates come out with the
    right keywords, contexts and values and with no unit, although 人
    and % follow the numbers; no candidate of any text carries a unit,
    the pattern having one capturing group only. *)
Theorem C7_candidates_carry_no_unit :
  _extract_metric_candidates metrics_input
  = [ Candidate (lit "員工") (lit "員工人數共 1200 人") (Some (lit "1200")) None;
      Candidate (lit "碳排") (lit "碳排放減少 15%") (Some (lit "15")) None ]
  /\ forall (text : str) (c : candidate),
       In c (_extract_metric_candidates text) -> unit c = None.
Proof.
  split; [vm_compute; reflexivity|].
  intros text c Hin. unfold _extract_metric_candidates in Hin.
  apply in_map_iff in Hin. destruct Hin as [[kw m] [<- _]].
  apply unit_of_candidate.
Qed.

Lemma StronglySorted_app_cross (A : Type) (R : A -> A -> Prop) (l1 l2 : list A) :
  StronglySorted R l1 -> StronglySorted R l2 ->
  (forall a b, In a l1 -> In b l2 -> R a b) ->
  StronglySorted R (l1 ++ l2).
Proof.
  intros H1 H2 Hx. induction H1 as [|a l1 H1 IH Ha]; [exact H2|].
  cbn [app]. constructor.
  - apply IH. intros x y Hin Hy. apply Hx; [right; exact Hin|exact Hy].
  - apply Forall_app. split; [exact Ha|].
    apply Forall_forall. intros y Hy. apply Hx; [left; reflexivity|exact Hy].
Qed.

Lemma StronglySorted_of_map (A B : Type) (R : B -> B -> Prop) (f : A -> B)
      (l : list A) :
  StronglySorted R (map f l) -> StronglySorted (fun x y => R (f x) (f y)) l.
Proof.
  induction l as [|a l IH]; intros H; [constructor|].
  cbn [map] in H. inversion H as [|? ? Hl Ha]; subst.
  constructor; [apply IH; exact Hl|].
  rewrite Forall_map in Ha. exact Ha.
Qed.

Section VisitOrder.
Variable rank : str -> nat.
Variable found : str -> list re_match.
Hypothesis found_sorted :
  forall kw, StronglySorted (fun a b => m_start a < m_start b) (found kw).

Lemma visits_keyword (kws : list str) (km : str * re_match) :
  In km (visits found kws) -> In (fst km) kws /\ In (snd km) (found (fst km)).
Proof.
  unfold visits. intros H. apply in_flat_map in H.
  destruct H as [kw [Hkw H]]. apply in_map_iff in H.
  destruct H as [m [<- Hm]]. split; assumption.
Qed.

(** Keywords taken in rising rank, each with matches of rising start,
    give visits that rise by rank first and by start second. *)
Lemma visits_sorted (kws : list str) :
  StronglySorted (fun a b => rank a < rank b) kws ->
  StronglySorted (fun x y => lex_lt (key_of rank x) (key_of rank y))
                 (visits found kws).
Proof.
  induction 1 as [|kw kws Hs IH Hkw]; [constructor|].
  unfold visits. cbn [flat_map]. fold (visits found kws).
  apply StronglySorted_app_cross.
  - pose proof (found_sorted kw) as Hf.
    induction Hf as [|m ms Hms IHm Hm]; cbn [map]; constructor; [exact IHm|].
    apply Forall_map. eapply Forall_impl; [|exact Hm].
    intros m' Hlt. right. split; [reflexivity|exact Hlt].
  - exact IH.
  - intros x y Hx Hy. apply in_map_iff in Hx. destruct Hx as [m [<- _]].
    apply visits_keyword in Hy. destruct Hy as [Hy _].
    left. cbn [key_of fst]. rewrite Forall_forall in Hkw. apply Hkw. exact Hy.
Qed.

End VisitOrder.

Lemma esg_keywords_ranked :
  StronglySorted (fun a b => keyword_rank a < keyword_rank b) esg_keywords.
Proof.
  apply StronglySorted_of_map.
  apply Sorted_StronglySorted; [intros x y z; apply Nat.lt_trans|].
  vm_compute. repeat (constructor; try lia).
Qed.

(** C10.  The candidates are the visited matches in visiting order.
    Each visited match has a keyword of the list and lies in the text at
    its start position; the visits rise by the rank of the keyword in
    the list first and by the start position second.  They are not in
    text order: in 環境 1 員工 2 the candidate of 員工, found at
    offset 5, comes before the candidate of 環境, found at offset 0. *)
Theorem C10_candidates_ordered_by_keyword_then_position :
  (forall text : str,
      _extract_metric_candidates text
      = map (fun km => candidate_of (fst km) (snd km)) (metric_matches text)
      /\ Forall (fun km =>
                   In (fst km) esg_keywords
                   /\ group0 (snd km)
                      = firstn (m_end (snd km) - m_start (snd km))
                               (skipn (m_start (snd km)) text))
                (metric_matches text)
      /\ StronglySorted (fun x y => lex_lt (visit_key x) (visit_key y))
                        (metric_matches text))
  /\ map (fun km => (fst km, m_start (snd km))) (metric_matches order_input)
     = [(lit "員工", 5); (lit "環境", 0)]
  /\ map keyword (_extract_metric_candidates order_input)
     = [lit "員工"; lit "環境"].
Proof.
  split; [|split; vm_compute; reflexivity].
  intros text. split; [reflexivity|]. split.
  - apply Forall_forall. intros km Hin.
    apply (@visits_keyword (fun kw => finditer (keyword_pattern kw) text))
      in Hin.
    destruct Hin as [Hkw Hm]. split; [exact Hkw|].
    destruct (finditer_ordered (keyword_pattern (fst km)) text) as [HF _].
    rewrite Forall_forall in HF. apply HF. exact Hm.
  - apply (@visits_sorted keyword_rank
             (fun kw => finditer (keyword_pattern kw) text)).
    + intros kw. apply finditer_ordered.
    + apply esg_keywords_ranked.
Qed.

(** ** The pipeline: metadata counts and unsupported formats *)

Lemma str_eqb_eq (a b : str) : str_eqb a b = true <-> a = b.
Proof.
  revert b. induction a as [|x a IH]; intros [|y b]; simpl;
    try (split; congruence).
  rewrite andb_true_iff, N.eqb_eq, IH. split.
  - intros [-> ->]. reflexivity.
  - intros H. injection H as -> ->. split; reflexivity.
Qed.

Lemma str_eqb_neq (a b : str) : a <> b -> str_eqb a b = false.
Proof.
  intros H. destruct (str_eqb a b) eqn:E; [|reflexivity].
  apply str_eqb_eq in E. contradiction.
Qed.

(** C8.  When [process_document] returns, the reader chosen for the
    suffix returned a text and a list of tables, tables_found is the
    number of those tables and total_chunks the number of chunks
    returned. *)
Theorem C8_metadata_counts (L : Libraries) (self : DocumentProcessor)
        (file_path : Path) (evs : list event) (chunks : list str)
        (md : Metadata) :
  process_document self file_path = (evs, inr (chunks, md)) ->
  exists (evs' : list event) (text : str) (tbls : list DataFrame),
    read_document (lower (path_suffix file_path)) file_path
    = (evs', inr (text, tbls))
    /\ tables_found md = Z.of_nat (List.length tbls)
    /\ total_chunks md = Z.of_nat (List.length chunks).
Proof.
  unfold process_document, try_except, bind.
  destruct (read_document (lower (path_suffix file_path)) file_path)
    as [evs1 [e|[text tbls]]]; [discriminate|].
  destruct (_process_tables tbls) as [evs2 [e|table_texts]];
    [discriminate|].
  cbn. intros H. injection H as _ <- <-.
  exists evs1, text, tbls. repeat split.
Qed.

(** C9.  A path whose lower-cased suffix is none of .pdf, .docx and
    .xlsx makes [process_document] raise the error of an unsupported
    format, a ValueError whose text names the suffix; nothing is
    returned, and the only effect is the logged error: no reader
    library was given the path. *)
Theorem C9_unsupported_suffix_raises (L : Libraries)
        (self : DocumentProcessor) (file_path : Path) :
  let suffix := lower (path_suffix file_path) in
  ~ In suffix [lit ".pdf"; lit ".docx"; lit ".xlsx"] ->
  process_document self file_path
  = ([LogError (lit "Error processing document: Unsupported file type: "
                ++ suffix)],
     inl (Exn ValueError (lit "Unsupported file type: " ++ suffix)))
  /\ forall path, ~ In (FileRead path) (fst (process_document self file_path)).
Proof.
  intros suffix Hs.
  assert (E : process_document self file_path
              = ([LogError (lit "Error processing document: Unsupported file type: "
                            ++ suffix)],
                 inl (Exn ValueError (lit "Unsupported file type: " ++ suffix)))).
  { unfold process_document, read_document. fold suffix.
    rewrite !str_eqb_neq; [reflexivity| | |];
      intros Heq; apply Hs; rewrite Heq; simpl; tauto. }
  split; [exact E|].
  rewrite E. intros path [H|[]]. discriminate.
Qed.

Lemma C8_metadata_counts_witness :
  process_document default_processor Toy.docx_path
  = (Toy.docx_events, inr (Toy.docx_chunks, Toy.docx_metadata))
  /\ exists (evs' : list event) (text : str)
            (tbls : list (@DataFrame Toy.libraries)),
       read_document (lower (path_suffix Toy.docx_path)) Toy.docx_path
       = (evs', inr (text, tbls))
       /\ tables_found Toy.docx_metadata = Z.of_nat (List.length tbls)
       /\ total_chunks Toy.docx_metadata
          = Z.of_nat (List.length Toy.docx_chunks).
Proof.
  split.
  - vm_compute. reflexivity.
  - apply (@C8_metadata_counts Toy.libraries default_processor Toy.docx_path
             Toy.docx_events Toy.docx_chunks Toy.docx_metadata).
    vm_compute. reflexivity.
Defined.

Lemma C9_unsupported_suffix_witness :
  ~ In (lower (path_suffix Toy.txt_path)) [lit ".pdf"; lit ".docx"; lit ".xlsx"]
  /\ process_document default_processor Toy.txt_path
     = ([LogError (lit "Error processing document: Unsupported file type: "
                   ++ lit ".txt")],
        inl (Exn ValueError (lit "Unsupported file type: " ++ lit ".txt")))
  /\ forall path,
       ~ In (FileRead path)
            (fst (process_document default_processor Toy.txt_path)).
Proof.
  assert (Hs : ~ In (lower (path_suffix Toy.txt_path))
                    [lit ".pdf"; lit ".docx"; lit ".xlsx"]).
  { vm_compute. intros [H|[H|[H|[]]]]; discriminate. }
  split; [exact Hs|].
  apply (@C9_unsupported_suffix_raises Toy.libraries default_processor
           Toy.txt_path Hs).
Defined.

(** * Further properties of the chunker *)

Lemma len_lstrip_le (s : str) : (len (lstrip s) <= len s)%Z.
Proof.
  destruct (lstrip_spaces_before s) as [w [Hs _]].
  rewrite Hs at 2. rewrite len_app. pose proof (len_nonneg w). lia.
Qed.

Lemma len_rstrip_le (s : str) : (len (rstrip s) <= len s)%Z.
Proof.
  destruct (rstrip_spaces_after s) as [w [Hs _]].
  rewrite Hs at 2. rewrite len_app. pose proof (len_nonneg w). lia.
Qed.

Lemma len_strip_le (s : str) : (len (strip s) <= len s)%Z.
Proof.
  unfold strip. pose proof (len_rstrip_le (lstrip s)).
  pose proof (len_lstrip_le s). lia.
Qed.

(** A trimmed string sits inside the string it was trimmed from. *)
Lemma strip_infix (s : str) : exists w1 w2, s = w1 ++ strip s ++ w2.
Proof.
  destruct (lstrip_spaces_before s) as [w1 [Hs _]].
  destruct (rstrip_spaces_after (lstrip s)) as [w2 [Hr _]].
  exists w1, w2. unfold strip. rewrite <- Hr. exact Hs.
Qed.

(** The turn of the loop, with the size test that allowed an append. *)
Lemma split_step_cases_sized (self : DocumentProcessor) (chunks : list str)
      (cur line : str) :
  split_step self (chunks, cur) line
  = ((if truthy cur then chunks ++ [strip cur] else chunks), line)
  \/ (split_step self (chunks, cur) line = (chunks, cur ++ LF :: line)
      /\ (len cur + len line <= chunk_size self - chunk_overlap self)%Z).
Proof.
  unfold split_step.
  destruct (matched (re_match_ section_pattern line) && truthy cur) eqn:E.
  - apply andb_true_iff in E. destruct E as [_ ->]. left. reflexivity.
  - destruct (Z.gtb_spec (len cur + len line)
                         (chunk_size self - chunk_overlap self)) as [H|H];
      [left; reflexivity|right; split; [reflexivity|exact H]].
Qed.

Section SizeBound.
Variable self : DocumentProcessor.
Variable lines : list str.

Let chunk_sized := chunk_within (chunk_size self - chunk_overlap self) lines.
Let buffer_sized := buffer_within (chunk_size self - chunk_overlap self) lines.

Lemma chunk_sized_flush (cur : str) :
  buffer_sized cur -> cur <> [] -> chunk_sized (strip cur).
Proof.
  intros [H|[H|H]] Hne; [congruence| |].
  - left. pose proof (len_strip_le cur). lia.
  - right. exists cur. split; [exact H|reflexivity].
Qed.

Lemma sized_step (st : scan_state) (line : str) :
  In line lines ->
  Forall chunk_sized (fst st) -> buffer_sized (snd st) ->
  Forall chunk_sized (fst (split_step self st line))
  /\ buffer_sized (snd (split_step self st line)).
Proof.
  destruct st as [chunks cur]. cbn [fst snd]. intros Hin Hch Hcur.
  destruct (split_step_cases_sized self chunks cur line) as [-> | [-> Hle]];
    cbn [fst snd].
  - split; [|right; right; exact Hin].
    destruct (truthy cur) eqn:T; [|exact Hch].
    apply Forall_app. split; [exact Hch|].
    constructor; [|constructor].
    apply chunk_sized_flush; [exact Hcur|]. apply truthy_true. exact T.
  - split; [exact Hch|]. right. left.
    rewrite len_app, len_cons. lia.
Qed.

Lemma sized_scan (ls : list str) (st : scan_state) :
  incl ls lines ->
  Forall chunk_sized (fst st) -> buffer_sized (snd st) ->
  Forall chunk_sized (fst (scan self ls st))
  /\ buffer_sized (snd (scan self ls st)).
Proof.
  revert st. induction ls as [|line ls IH]; intros st Hincl Hch Hcur.
  - split; assumption.
  - rewrite scan_cons.
    destruct (@sized_step st line) as [Hch' Hcur']; try assumption.
    { apply Hincl. left. reflexivity. }
    apply IH; try assumption.
    intros x Hx. apply Hincl. right. exact Hx.
Qed.

End SizeBound.

(** X1.  The size limit is kept line by line: a chunk is at most
    chunk_size - chunk_overlap + 1 characters long, unless it is one
    single line of the text, trimmed, which is never cut. *)
Theorem split_text_chunk_size (self : DocumentProcessor) (text : str) :
  Forall (fun chunk =>
            (len chunk <= chunk_size self - chunk_overlap self + 1)%Z
            \/ exists line, In line (split_lines text) /\ chunk = strip line)
         (_split_text self text).
Proof.
  unfold _split_text.
  destruct (@sized_scan self (split_lines text) (split_lines text) ([], []))
    as [Hch Hcur].
  - apply incl_refl.
  - constructor.
  - left. reflexivity.
  - destruct (scan self (split_lines text) ([], [])) as [chunks cur].
    cbn [fst snd flush_last] in *.
    destruct (truthy cur) eqn:T; [|exact Hch].
    apply Forall_app. split; [exact Hch|].
    constructor; [|constructor].
    apply (@chunk_sized_flush self _ _ Hcur). apply truthy_true. exact T.
Qed.

(** X2.  When chunk_overlap exceeds chunk_size the size test always
    fires: every non-empty line is a chunk of its own, trimmed, and
    nothing else is returned. *)
Theorem split_text_negative_limit (self : DocumentProcessor) (text : str) :
  (chunk_size self - chunk_overlap self < 0)%Z ->
  _split_text self text = map strip (filter truthy (split_lines text)).
Proof.
  intros Hneg. unfold _split_text.
  assert (H : forall lines chunks cur,
             Forall no_lf lines ->
             flush_last (scan self lines (chunks, cur))
             = chunks ++ map strip (filter truthy (cur :: lines))).
  { induction lines as [|line lines IH]; intros chunks cur Hlf.
    - cbn [scan fold_left flush_last filter].
      destruct (truthy cur); [reflexivity|]. cbn [map]. rewrite app_nil_r.
      reflexivity.
    - inversion Hlf as [|? ? Hl Hls]; subst.
      rewrite scan_cons, split_step_no_lf by exact Hl.
      destruct (Z.gtb_spec (len cur + len line)
                           (chunk_size self - chunk_overlap self)) as [_|Hle].
      + rewrite IH by exact Hls. cbn [filter].
        destruct (truthy cur); [|reflexivity].
        cbn [map]. rewrite <- app_assoc. reflexivity.
      + pose proof (len_nonneg cur). pose proof (len_nonneg line). lia. }
  rewrite H by apply split_lines_no_lf. reflexivity.
Qed.

Lemma split_text_negative_limit_witness :
  (chunk_size (MkProcessor 100 200) - chunk_overlap (MkProcessor 100 200) < 0)%Z
  /\ _split_text (MkProcessor 100 200)
                 (lit "一、總則" ++ LF :: LF :: lit " 內容 ")
     = map strip (filter truthy
                    (split_lines (lit "一、總則" ++ LF :: LF :: lit " 內容 "))).
Proof.
  split.
  - vm_compute. reflexivity.
  - apply (@split_text_negative_limit (MkProcessor 100 200)
             (lit "一、總則" ++ LF :: LF :: lit " 內容 ")).
    vm_compute. reflexivity.
Defined.

Lemma covered_length (segs : list segment) :
  Forall segment_ok segs -> List.length segs <= List.length (covered segs).
Proof.
  induction 1 as [|[G R] segs [_ HR] _ IH]; [apply Nat.le_refl|].
  unfold covered in *. cbn [flat_map fst snd List.length] in *.
  rewrite !length_app. destruct R; [congruence|]. cbn [List.length]. lia.
Qed.

(** X3.  There are never more chunks than lines in the text. *)
Theorem split_text_count_le_lines (self : DocumentProcessor) (text : str) :
  List.length (_split_text self text) <= List.length (split_lines text).
Proof.
  destruct (split_text_segments self text) as (segs & gap & HP & Hok & _ & ->).
  rewrite length_map, HP, length_app.
  pose proof (covered_length Hok). lia.
Qed.

Lemma started_step (self : DocumentProcessor) (st : scan_state) (line : str) :
  started st -> started (split_step self st line).
Proof.
  destruct st as [chunks cur]. unfold started. cbn [fst snd].
  intros H.
  destruct (split_step_cases self chunks cur line) as [-> | ->]; cbn [fst snd].
  - destruct (truthy cur) eqn:T.
    + left. destruct chunks; discriminate.
    + destruct cur; [|discriminate]. destruct H; [left|]; congruence.
  - right. destruct cur; discriminate.
Qed.

Lemma started_scan (self : DocumentProcessor) (lines : list str)
      (st : scan_state) :
  started st -> started (scan self lines st).
Proof.
  revert st. induction lines as [|line lines IH]; intros st H; [exact H|].
  rewrite scan_cons. apply IH. apply started_step. exact H.
Qed.

Lemma started_first (self : DocumentProcessor) (line : str) :
  (0 <= chunk_size self - chunk_overlap self)%Z ->
  started (split_step self ([], []) line).
Proof.
  intros Hlim. unfold split_step, started. cbn [truthy].
  rewrite andb_false_r.
  destruct (Z.gtb_spec (len [] + len line)
                       (chunk_size self - chunk_overlap self)) as [Hgt|_];
    cbn [fst snd]; right.
  - intros ->. change (len [] + len [])%Z with 0%Z in Hgt. lia.
  - discriminate.
Qed.

(** After its first line the scan has flushed a chunk or holds a buffer. *)
Lemma scan_started (self : DocumentProcessor) (lines : list str) :
  (0 <= chunk_size self - chunk_overlap self)%Z ->
  lines <> [] -> started (scan self lines ([], [])).
Proof.
  intros Hlim Hne. destruct lines as [|line lines]; [congruence|].
  rewrite scan_cons. apply started_scan. apply started_first. exact Hlim.
Qed.

Lemma flush_started (st : scan_state) : started st -> flush_last st <> [].
Proof.
  destruct st as [chunks cur]. unfold started. cbn [fst snd flush_last].
  intros H. destruct (truthy cur) eqn:T.
  - destruct chunks; discriminate.
  - destruct cur; [|discriminate]. destruct H; congruence.
Qed.

(** X4.  When chunk_overlap does not exceed chunk_size, every text, the
    empty one too, gives at least one chunk. *)
Theorem split_text_at_least_one_chunk (self : DocumentProcessor) (text : str) :
  (0 <= chunk_size self - chunk_overlap self)%Z ->
  _split_text self text <> [].
Proof.
  intros Hlim. unfold _split_text. apply flush_started.
  apply scan_started; [exact Hlim|apply split_lines_not_nil].
Qed.

Lemma split_text_at_least_one_chunk_witness :
  (0 <= chunk_size default_processor - chunk_overlap default_processor)%Z
  /\ _split_text default_processor (lit "一、總則" ++ [LF]) <> [].
Proof.
  split.
  - vm_compute. discriminate.
  - apply (@split_text_at_least_one_chunk default_processor
             (lit "一、總則" ++ [LF])).
    vm_compute. discriminate.
Defined.

(** A run of lines, joined, is a piece of the lines around it, joined. *)
Lemma join_lines_infix (A R B : list str) :
  R <> [] ->
  exists pre post, join_lines (A ++ R ++ B) = pre ++ join_lines R ++ post.
Proof.
  intros HR.
  assert (HRB : exists post, join_lines (R ++ B) = join_lines R ++ post).
  { destruct B as [|b B].
    - exists []. rewrite !app_nil_r. reflexivity.
    - exists (LF :: join_lines (b :: B)).
      apply join_lines_app; [exact HR|discriminate]. }
  destruct HRB as [post HRB].
  destruct A as [|a A].
  - exists [], post. exact HRB.
  - exists (join_lines (a :: A) ++ [LF]), post.
    rewrite join_lines_app; [|discriminate|destruct R; [congruence|discriminate]].
    rewrite HRB, <- app_assoc. reflexivity.
Qed.

Lemma covered_in (segs : list segment) (g : segment) :
  In g segs -> exists A B, covered segs = A ++ snd g ++ B.
Proof.
  induction segs as [|h segs IH]; intros Hin; [destruct Hin|].
  unfold covered in *. cbn [flat_map].
  destruct Hin as [->|Hin].
  - exists (fst g), (flat_map (fun g0 => fst g0 ++ snd g0) segs).
    rewrite <- app_assoc. reflexivity.
  - destruct (IH Hin) as [A [B E]].
    exists ((fst h ++ snd h) ++ A), B. rewrite E, <- !app_assoc. reflexivity.
Qed.

(** X5.  Every chunk is a piece of the text: the text is the chunk with
    something before it and something after it.  No character is added
    or changed on the way. *)
Theorem split_text_chunks_in_text (self : DocumentProcessor) (text : str) :
  Forall (fun chunk => exists pre post, text = pre ++ chunk ++ post)
         (_split_text self text).
Proof.
  destruct (split_text_segments self text) as (segs & gap & HP & Hok & _ & ->).
  apply Forall_map. apply Forall_forall. intros g Hg.
  rewrite Forall_forall in Hok. destruct (Hok g Hg) as [_ HR].
  destruct (covered_in _ _ Hg) as [A [B E]].
  destruct (@join_lines_infix A (snd g) (B ++ gap) HR) as [pre [post J]].
  destruct (strip_infix (join_lines (snd g))) as [w1 [w2 W]].
  exists (pre ++ w1), (w2 ++ post). unfold chunk_of.
  rewrite <- (join_split text), HP, E, <- !app_assoc, J.
  rewrite W at 1. rewrite <- !app_assoc. reflexivity.
Qed.

(** X6.  A text of one line, however long, is never cut: unless it is
    empty it comes back as one chunk, the line trimmed, whatever the
    configuration. *)
Theorem split_text_single_line (self : DocumentProcessor) (text : str) :
  no_lf text -> text <> [] -> _split_text self text = [strip text].
Proof.
  intros Hlf Hne. unfold _split_text.
  rewrite (split_lines_single Hlf), scan_cons, (split_step_no_lf _ _ _ Hlf).
  cbn [scan fold_left truthy].
  destruct (len [] + len text >? chunk_size self - chunk_overlap self)%Z;
    cbn [flush_last].
  - destruct text; [congruence|reflexivity].
  - cbn [app truthy]. apply f_equal2; [apply strip_lf|reflexivity].
Qed.

Lemma split_text_single_line_witness :
  no_lf (repeat 97%N 2000) /\ repeat 97%N 2000 <> []
  /\ _split_text default_processor (repeat 97%N 2000)
     = [strip (repeat 97%N 2000)].
Proof.
  assert (Hlf : no_lf (repeat 97%N 2000)).
  { intros Hin. apply repeat_spec in Hin. discriminate. }
  assert (Hne : repeat 97%N 2000 <> []) by discriminate.
  split; [exact Hlf|]. split; [exact Hne|].
  apply (@split_text_single_line default_processor (repeat 97%N 2000) Hlf Hne).
Defined.

(** * Further properties of the metric candidates *)

(** What the matcher answers, its continuation answered in a state
    that the pattern can reach. *)
Lemma star_iter_sound (R : Type) (a : regex) :
  (forall s (k : mstate -> option R) x,
      run a s k = Some x -> exists s', Matches a s s' /\ k s' = Some x) ->
  forall greedy (k : mstate -> option R) fuel s x,
    star_iter (run a) greedy k fuel s = Some x ->
    exists s', Matches (Star greedy a) s s' /\ k s' = Some x.
Proof.
  intros Hbody greedy k fuel.
  assert (Hmore : forall fuel' s x,
             (forall s0 x0, star_iter (run a) greedy k fuel' s0 = Some x0 ->
                            exists s', Matches (Star greedy a) s0 s'
                                       /\ k s' = Some x0) ->
             run a s (fun s' =>
                        if Nat.ltb (List.length (rest s')) (List.length (rest s))
                        then star_iter (run a) greedy k fuel' s' else None)
             = Some x ->
             exists s', Matches (Star greedy a) s s' /\ k s' = Some x).
  { intros fuel' s x IH H. apply Hbody in H. destruct H as [s1 [Hm H]].
    destruct (Nat.ltb _ _); [|discriminate].
    destruct (IH _ _ H) as [s2 [Hm2 Hk]].
    exists s2. split; [|exact Hk]. eapply M_star_more; eassumption. }
  induction fuel as [|fuel IH]; intros s x H; cbn [star_iter] in H.
  - exists s. split; [apply M_star_stop|exact H].
  - destruct greedy.
    + match type of H with
      | match ?again with _ => _ end = _ => destruct again as [y|] eqn:E
      end.
      * injection H as ->. apply (Hmore fuel s x IH E).
      * exists s. split; [apply M_star_stop|exact H].
    + destruct (k s) as [y|] eqn:Ek.
      * injection H as ->. exists s. split; [apply M_star_stop|exact Ek].
      * apply (Hmore fuel s x IH H).
Qed.

Lemma run_sound (R : Type) (r : regex) :
  forall (s : mstate) (k : mstate -> option R) (x : R),
    run r s k = Some x -> exists s', Matches r s s' /\ k s' = Some x.
Proof.
  induction r as [|p|a IHa b IHb|a IHa b IHb|greedy a IHa|i a IHa];
    intros s k x H; cbn [run] in H.
  - exists s. split; [constructor|exact H].
  - destruct (rest s) as [|c t] eqn:E; [discriminate|].
    destruct (p c) eqn:Hp; [|discriminate].
    eexists. split; [eapply M_class; eassumption|exact H].
  - apply IHa in H. destruct H as [s1 [H1 H]].
    apply IHb in H. destruct H as [s2 [H2 H]].
    exists s2. split; [eapply M_seq; eassumption|exact H].
  - destruct (run a s k) as [y|] eqn:E.
    + injection H as ->. apply IHa in E. destruct E as [s1 [H1 E]].
      exists s1. split; [apply M_alt_l; exact H1|exact E].
    + apply IHb in H. destruct H as [s1 [H1 H]].
      exists s1. split; [apply M_alt_r; exact H1|exact H].
  - apply (@star_iter_sound _ _ IHa) in H. exact H.
  - apply IHa in H. destruct H as [s1 [H1 H]].
    eexists. split; [apply M_group; exact H1|exact H].
Qed.

(** A pattern reads a piece off the front of the input, made of
    characters of its classes. *)
Lemma Matches_prefix (P : char -> bool) (r : regex) (s s' : mstate) :
  Matches r s s' -> classes_within P r ->
  exists pre, rest s = pre ++ rest s' /\ Forall (fun c => P c = true) pre.
Proof.
  induction 1 as [s|p s c t E Hp|a b s s1 s2 _ IH1 _ IH2|a b s s1 _ IH
                  |a b s s1 _ IH|g a s|g a s s1 s2 _ IH1 _ IH2|i a s s1 _ IH];
    cbn [classes_within]; intros Hcw.
  - exists []. split; [reflexivity|constructor].
  - exists [c]. split; [exact E|]. constructor; [apply Hcw; exact Hp|constructor].
  - destruct Hcw as [Ha Hb].
    destruct (IH1 Ha) as [p1 [E1 F1]]. destruct (IH2 Hb) as [p2 [E2 F2]].
    exists (p1 ++ p2). split; [rewrite E1, E2, app_assoc; reflexivity|].
    apply Forall_app. split; assumption.
  - apply IH. apply Hcw.
  - apply IH. apply Hcw.
  - exists []. split; [reflexivity|constructor].
  - destruct (IH1 Hcw) as [p1 [E1 F1]]. destruct (IH2 Hcw) as [p2 [E2 F2]].
    exists (p1 ++ p2). split; [rewrite E1, E2, app_assoc; reflexivity|].
    apply Forall_app. split; assumption.
  - exact (IH Hcw).
Qed.

(** A pattern without capturing groups leaves the captures alone. *)
Lemma Matches_caps (r : regex) (s s' : mstate) :
  Matches r s s' -> ngroups r = 0 -> caps s' = caps s.
Proof.
  induction 1 as [s|p s c t E Hp|a b s s1 s2 _ IH1 _ IH2|a b s s1 _ IH
                  |a b s s1 _ IH|g a s|g a s s1 s2 _ IH1 _ IH2|i a s s1 _ IH];
    cbn [ngroups]; intros Hn; try reflexivity.
  - rewrite IH2, IH1 by lia. reflexivity.
  - apply IH. lia.
  - apply IH. lia.
  - rewrite IH2, IH1 by assumption. reflexivity.
  - discriminate.
Qed.

Lemma Matches_Lit (kw : str) (s s' : mstate) :
  Matches (Lit kw) s s' -> rest s = kw ++ rest s'.
Proof.
  revert s. induction kw as [|c kw IH]; intros s H; cbn [Lit] in H.
  - inversion H; subst. reflexivity.
  - inversion H as [| |a b s0 s1 s2 H1 H2| | | | |]; subst.
    inversion H1 as [|p s0 c' t E Hp| | | | | |]; subst.
    apply N.eqb_eq in Hp. subst c'.
    apply IH in H2. cbn [rest] in H2. rewrite E, H2. reflexivity.
Qed.

Lemma consumed_app (pre r : str) : consumed (pre ++ r) r = pre.
Proof.
  unfold consumed. rewrite length_app.
  replace (List.length pre + List.length r - List.length r)
    with (List.length pre) by lia.
  rewrite firstn_app, Nat.sub_diag, firstn_all. cbn [firstn].
  apply app_nil_r.
Qed.

Lemma classes_within_Lit (P : char -> bool) (kw : str) :
  Forall (fun c => P c = true) kw -> classes_within P (Lit kw).
Proof.
  induction 1 as [|c kw Hc _ IH]; cbn [Lit classes_within]; [exact I|].
  split; [|exact IH]. intros x Hx. apply N.eqb_eq in Hx. subst x. exact Hc.
Qed.

Lemma classes_within_Alts (P : char -> bool) (rs : list regex) :
  Forall (classes_within P) rs -> classes_within P (Alts rs).
Proof.
  induction 1 as [|r rs Hr Hrs IH]; [intros c Hc; discriminate|].
  destruct rs as [|r' rs]; [exact Hr|].
  change (Alts (r :: r' :: rs)) with (Alt r (Alts (r' :: rs))).
  split; [exact Hr|exact IH].
Qed.

Lemma ngroups_Alts_Lit (us : list str) : ngroups (Alts (map Lit us)) = 0.
Proof.
  induction us as [|u us IH]; [reflexivity|].
  destruct us as [|u' us]; [apply ngroups_Lit|].
  change (ngroups (Lit u) + ngroups (Alts (map Lit (u' :: us))) = 0).
  rewrite ngroups_Lit, IH. reflexivity.
Qed.

(** What a successful match of the pattern at the front of [s] holds. *)
Lemma match_at_Matches (r : regex) (pos : nat) (s : str) (m : re_match) :
  match_at r pos s = Some m ->
  exists s', Matches r (MState s []) s'
             /\ group0 m = consumed s (rest s') /\ m_caps m = caps s'.
Proof.
  unfold match_at. intros H. apply run_sound in H.
  destruct H as [s' [Hm H]]. injection H as <-.
  exists s'. cbn [group0 m_caps]. repeat split. exact Hm.
Qed.

Lemma finditer_from_in (r : regex) (m : re_match) (s : str) :
  forall pos skip,
    In m (finditer_from r pos skip s) ->
    exists pos' s0, match_at r pos' s0 = Some m.
Proof.
  induction s as [|c s IH]; intros pos skip Hin.
  - destruct skip; cbn [finditer_from] in Hin; [|destruct Hin].
    destruct (match_at r pos []) as [m'|] eqn:E; [|destruct Hin].
    destruct Hin as [<-|[]]. exists pos, []. exact E.
  - destruct skip as [|skip]; cbn [finditer_from] in Hin.
    + destruct (match_at r pos (c :: s)) as [m'|] eqn:E.
      * destruct Hin as [<-|Hin]; [exists pos, (c :: s); exact E|].
        apply (IH _ _ Hin).
      * apply (IH _ _ Hin).
    + apply (IH _ _ Hin).
Qed.

Lemma unit_symbols_value :
  unit_symbols
  = [[37]; [65285]; [33836]; [20740]; [20491]; [20154]; [20803];
     [23567; 26178]; [20998; 37912]]%N.
Proof. vm_compute. reflexivity. Qed.

Lemma Matches_seq_inv (a b : regex) (s s2 : mstate) :
  Matches (Seq a b) s s2 -> exists s1, Matches a s s1 /\ Matches b s1 s2.
Proof. intros H. inversion H; subst. eexists. split; eassumption. Qed.

Lemma Matches_class_inv (p : char -> bool) (s s' : mstate) :
  Matches (Class p) s s' ->
  exists c t, rest s = c :: t /\ p c = true /\ s' = MState t (caps s).
Proof. intros H. inversion H; subst. eexists _, _. repeat split; eassumption. Qed.

Lemma Matches_group_inv (i : nat) (a : regex) (s s' : mstate) :
  Matches (Group i a) s s' ->
  exists s1, Matches a s s1
             /\ s' = MState (rest s1)
                            ((i, consumed (rest s) (rest s1)) :: caps s1).
Proof. intros H. inversion H; subst. eexists. split; [eassumption|reflexivity]. Qed.

(** The parts of a text that a keyword pattern accepts: the keyword,
    characters other than 。 and line feed, the number, which is the
    captured group, then white space and unit characters. *)
Lemma keyword_match_shape (kw s : str) (s' : mstate) :
  Matches (keyword_pattern kw) (MState s []) s' ->
  exists mid v tail,
    s = (kw ++ mid ++ v ++ tail) ++ rest s'
    /\ caps s' = [(1, v)]
    /\ Forall (fun c => c <> full_stop /\ c <> LF) mid
    /\ (exists d ds, v = d :: ds /\ isdecimal d = true)
    /\ Forall (fun c => isdecimal c = true \/ c = 46%N) v
    /\ Forall (fun c => isspace c = true \/ In c (List.concat unit_symbols)) tail.
Proof.
  unfold keyword_pattern, number_pattern. intros H.
  apply Matches_seq_inv in H. destruct H as (s1 & Hkw & H1).
  apply Matches_seq_inv in H1. destruct H1 as (s2 & Hmid & H2).
  apply Matches_seq_inv in H2. destruct H2 as (s3' & Hgrp & Htail).
  apply Matches_group_inv in Hgrp. destruct Hgrp as (s3 & Hnum & ->).
  apply Matches_seq_inv in Hnum. destruct Hnum as (sa & Hint & Hfrac).
  pose proof (M_seq Hint Hfrac) as Hnum.
  apply Matches_seq_inv in Hint. destruct Hint as (sy & Hd & Hds).
  apply Matches_class_inv in Hd. destruct Hd as (d & t & Ed & Hdec & ->).
  (* the keyword *)
  pose proof (@Matches_Lit kw _ _ Hkw) as Ekw. cbn [rest] in Ekw.
  pose proof (@Matches_caps _ _ _ Hkw (ngroups_Lit kw)) as Ckw.
  cbn [caps] in Ckw.
  (* the characters skipped before the number *)
  destruct (@Matches_prefix
              (fun c => negb (existsb (N.eqb c) (lit "。" ++ [LF]))) _ _ _ Hmid)
    as [mid [Emid Fmid]]; [intros c Hc; exact Hc|].
  pose proof (@Matches_caps _ _ _ Hmid eq_refl) as Cmid.
  (* the number *)
  destruct (@Matches_prefix (fun c => isdecimal c || N.eqb c 46) _ _ _ Hds)
    as [p1 [E1 F1]]; [intros c Hc; rewrite Hc; reflexivity|].
  destruct (@Matches_prefix (fun c => isdecimal c || N.eqb c 46) _ _ _ Hfrac)
    as [p2 [E2 F2]].
  { cbn [classes_within]. repeat split; try exact I; intros c Hc.
    - apply N.eqb_eq in Hc. subst c. reflexivity.
    - rewrite Hc. reflexivity.
    - rewrite Hc. reflexivity. }
  pose proof (@Matches_caps _ _ _ Hnum eq_refl) as Cnum.
  (* white space and unit *)
  destruct (@Matches_prefix
              (fun c => isspace c || existsb (N.eqb c) (List.concat unit_symbols))
              _ _ _ Htail) as [tail [Et Ft]].
  { cbn [classes_within Opt]. split; [intros c Hc; rewrite Hc; reflexivity|].
    split; [|exact I]. apply classes_within_Alts. rewrite unit_symbols_value.
    cbn [map].
    repeat (constructor; [apply classes_within_Lit; repeat constructor|]).
    constructor. }
  pose proof (@Matches_caps _ _ _ Htail) as Ctail.
  cbn [rest caps] in *.
  exists mid, (d :: p1 ++ p2), tail.
  assert (Es2 : rest s2 = (d :: p1 ++ p2) ++ rest s3).
  { rewrite Ed, E1, E2. cbn [app]. rewrite <- app_assoc. reflexivity. }
  split.
  { rewrite Ekw, Emid, Es2, Et, <- !app_assoc. reflexivity. }
  split.
  { rewrite Ctail.
    - rewrite Es2, consumed_app, Cnum, Cmid, Ckw. reflexivity.
    - cbn [ngroups Opt]. rewrite ngroups_Alts_Lit. reflexivity. }
  split.
  { eapply Forall_impl; [|exact Fmid]. intros c Hc. cbn in Hc.
    change (lit "。" ++ [LF]) with [full_stop; LF] in Hc. cbn [existsb] in Hc.
    apply negb_true_iff in Hc. rewrite orb_false_r in Hc.
    apply orb_false_iff in Hc. destruct Hc as [Hf Hl].
    apply N.eqb_neq in Hf. apply N.eqb_neq in Hl. split; assumption. }
  split.
  { exists d, (p1 ++ p2). split; [reflexivity|exact Hdec]. }
  split.
  { assert (Hor : forall c, isdecimal c || N.eqb c 46 = true ->
                            isdecimal c = true \/ c = 46%N).
    { intros c Hc. apply orb_true_iff in Hc.
      destruct Hc as [Hc|Hc]; [left; exact Hc|right; apply N.eqb_eq; exact Hc]. }
    constructor; [left; exact Hdec|].
    apply Forall_app. split; (eapply Forall_impl; [|eassumption]); exact Hor. }
  eapply Forall_impl; [|exact Ft]. intros c Hc. cbv beta in Hc.
  apply orb_true_iff in Hc. destruct Hc as [Hc|Hc]; [left; exact Hc|right].
  apply existsb_exists in Hc. destruct Hc as [x [Hx Hcx]].
  apply N.eqb_eq in Hcx. subst x. exact Hx.
Qed.

Lemma candidate_origin (text : str) (c : candidate) :
  In c (_extract_metric_candidates text) ->
  exists kw m,
    c = candidate_of kw m /\ In kw esg_keywords
    /\ In m (finditer (keyword_pattern kw) text).
Proof.
  unfold _extract_metric_candidates. intros Hin.
  apply in_map_iff in Hin. destruct Hin as [[kw m] [<- Hin]].
  apply (@visits_keyword (fun kw => finditer (keyword_pattern kw) text))
    in Hin.
  destruct Hin as [Hkw Hm]. exists kw, m. repeat split; assumption.
Qed.

Lemma keyword_match_parts (kw text : str) (m : re_match) :
  In m (finditer (keyword_pattern kw) text) ->
  exists mid v tail,
    group0 m = kw ++ mid ++ v ++ tail
    /\ group m 1 = Some v
    /\ Forall (fun ch => ch <> full_stop /\ ch <> LF) mid
    /\ (exists d ds, v = d :: ds /\ isdecimal d = true)
    /\ Forall (fun ch => isdecimal ch = true \/ ch = 46%N) v
    /\ Forall (fun ch => isspace ch = true
                         \/ In ch (List.concat unit_symbols)) tail.
Proof.
  intros Hm.
  apply finditer_from_in in Hm. destruct Hm as (pos & s0 & Hm).
  apply match_at_Matches in Hm. destruct Hm as (s' & HM & Hg & Hc).
  destruct (keyword_match_shape HM)
    as (mid & v & tail & Es & Ecaps & Hmid & Hv & Hvs & Htail).
  exists mid, v, tail.
  split; [rewrite Hg, Es; apply consumed_app|].
  split; [unfold group; rewrite Hc, Ecaps; reflexivity|].
  repeat split; assumption.
Qed.

Lemma candidate_parts (text : str) (c : candidate) :
  In c (_extract_metric_candidates text) ->
  In (keyword c) esg_keywords
  /\ exists mid v tail,
       context c = keyword c ++ mid ++ v ++ tail
       /\ value c = Some v
       /\ Forall (fun ch => ch <> full_stop /\ ch <> LF) mid
       /\ (exists d ds, v = d :: ds /\ isdecimal d = true)
       /\ Forall (fun ch => isdecimal ch = true \/ ch = 46%N) v
       /\ Forall (fun ch => isspace ch = true
                            \/ In ch (List.concat unit_symbols)) tail.
Proof.
  intros Hin. destruct (candidate_origin _ _ Hin) as (kw & m & -> & Hkw & Hm).
  split; [exact Hkw|]. exact (keyword_match_parts _ _ _ Hm).
Qed.

(** X7.  The parts of a candidate.  Its keyword is one of the list; its
    context is the keyword, then characters other than 。 and line feed,
    then its value, then white space and unit characters.  The value is
    always present: it begins with a decimal digit and holds decimal
    digits and dots only. *)
Theorem candidate_shape (text : str) (c : candidate) :
  In c (_extract_metric_candidates text) ->
  In (keyword c) esg_keywords
  /\ exists mid v tail,
       context c = keyword c ++ mid ++ v ++ tail
       /\ value c = Some v
       /\ Forall (fun ch => ch <> full_stop /\ ch <> LF) mid
       /\ (exists d ds, v = d :: ds /\ isdecimal d = true)
       /\ Forall (fun ch => isdecimal ch = true \/ ch = 46%N) v
       /\ Forall (fun ch => isspace ch = true
                            \/ In ch (List.concat unit_symbols)) tail.
Proof.
  intros Hin. destruct (candidate_origin _ _ Hin) as (kw & m & -> & Hkw & Hm).
  split; [exact Hkw|].
  destruct (keyword_match_parts _ _ _ Hm)
    as (mid & v & tail & Hctx & Hval & Hmid & Hv & Hvs & Htail).
  exists mid, v, tail. cbn [candidate_of keyword context value].
  repeat split; assumption.
Qed.

Lemma example_candidate_found :
  In example_candidate (_extract_metric_candidates metrics_input).
Proof. vm_compute. left. reflexivity. Qed.

Lemma candidate_shape_witness :
  In example_candidate (_extract_metric_candidates metrics_input)
  /\ In (keyword example_candidate) esg_keywords
  /\ exists mid v tail,
       context example_candidate = keyword example_candidate ++ mid ++ v ++ tail
       /\ value example_candidate = Some v
       /\ Forall (fun ch => ch <> full_stop /\ ch <> LF) mid
       /\ (exists d ds, v = d :: ds /\ isdecimal d = true)
       /\ Forall (fun ch => isdecimal ch = true \/ ch = 46%N) v
       /\ Forall (fun ch => isspace ch = true
                            \/ In ch (List.concat unit_symbols)) tail.
Proof.
  split; [exact example_candidate_found|].
  apply (@candidate_shape metrics_input example_candidate
           example_candidate_found).
Defined.

Lemma esg_keywords_no_full_stop :
  Forall (fun kw => ~ In full_stop kw) esg_keywords.
Proof.
  assert (H : forallb (fun kw => negb (existsb (N.eqb full_stop) kw))
                      esg_keywords = true) by (vm_compute; reflexivity).
  rewrite forallb_forall in H. apply Forall_forall. intros kw Hkw Hin.
  specialize (H kw Hkw). apply negb_true_iff in H.
  assert (existsb (N.eqb full_stop) kw = true); [|congruence].
  apply existsb_exists. exists full_stop. split; [exact Hin|apply N.eqb_refl].
Qed.

Lemma finditer_in_text (r : regex) (text : str) (m : re_match) :
  In m (finditer r text) -> exists pre post, text = pre ++ group0 m ++ post.
Proof.
  intros Hin. destruct (finditer_ordered r text) as [HF _].
  rewrite Forall_forall in HF. specialize (HF m Hin).
  exists (firstn (m_start m) text),
         (skipn (m_end m - m_start m) (skipn (m_start m) text)).
  rewrite HF, firstn_skipn, firstn_skipn. reflexivity.
Qed.

Lemma candidate_in_text (text : str) (c : candidate) :
  In c (_extract_metric_candidates text) ->
  exists pre post, text = pre ++ context c ++ post.
Proof.
  intros Hin. destruct (candidate_origin _ _ Hin) as (kw & m & -> & _ & Hm).
  exact (finditer_in_text _ _ _ Hm).
Qed.

Lemma esg_keywords_no_line_feed :
  Forall (fun kw => ~ In LF kw) esg_keywords.
Proof.
  assert (H : forallb (fun kw => negb (existsb (N.eqb LF) kw))
                      esg_keywords = true) by (vm_compute; reflexivity).
  rewrite forallb_forall in H. apply Forall_forall. intros kw Hkw Hin.
  specialize (H kw Hkw). apply negb_true_iff in H.
  assert (existsb (N.eqb LF) kw = true); [|congruence].
  apply existsb_exists. exists LF. split; [exact Hin|apply N.eqb_refl].
Qed.

(** X8.  Where the context of a candidate can reach.  It is a piece of
    the text and holds no 。 at all.  From the keyword to the end of the
    value it holds no line feed either; what follows the value is white
    space and unit characters only, and there, and only there, a line
    feed can stand: the white space after the number may run on to the
    next line. *)
Theorem candidate_context_bounds (text : str) (c : candidate) :
  In c (_extract_metric_candidates text) ->
  ~ In full_stop (context c)
  /\ (exists pre post, text = pre ++ context c ++ post)
  /\ exists mid v tail,
       context c = (keyword c ++ mid ++ v) ++ tail
       /\ value c = Some v
       /\ ~ In LF (keyword c ++ mid ++ v)
       /\ Forall (fun ch => isspace ch = true
                            \/ In ch (List.concat unit_symbols)) tail.
Proof.
  intros Hin.
  destruct (candidate_parts _ _ Hin)
    as (Hkw & mid & v & tail & Ec & Ev & Hmid & _ & Hv & Htail).
  split; [|split].
  - rewrite Ec.
    pose proof esg_keywords_no_full_stop as HK.
    rewrite Forall_forall in HK, Hmid, Hv, Htail.
    intros Hf. rewrite !in_app_iff in Hf.
    destruct Hf as [Hf|[Hf|[Hf|Hf]]].
    + exact (HK _ Hkw Hf).
    + destruct (Hmid _ Hf) as [Hne _]. congruence.
    + destruct (Hv _ Hf) as [H|H]; [vm_compute in H|]; discriminate.
    + destruct (Htail _ Hf) as [H|H]; [vm_compute in H; discriminate|].
      rewrite unit_symbols_value in H. cbn in H.
      repeat (destruct H as [H|H]; [discriminate|]). exact H.
  - exact (candidate_in_text _ _ Hin).
  - exists mid, v, tail.
    split; [rewrite Ec, <- !app_assoc; reflexivity|].
    split; [exact Ev|]. split; [|exact Htail].
    pose proof esg_keywords_no_line_feed as HK.
    rewrite Forall_forall in HK, Hmid, Hv.
    intros Hf. rewrite !in_app_iff in Hf.
    destruct Hf as [Hf|[Hf|Hf]].
    + exact (HK _ Hkw Hf).
    + destruct (Hmid _ Hf) as [_ Hne]. congruence.
    + destruct (Hv _ Hf) as [H|H]; [vm_compute in H|]; discriminate.
Qed.

Lemma candidate_context_bounds_witness :
  In example_candidate (_extract_metric_candidates metrics_input)
  /\ ~ In full_stop (context example_candidate)
  /\ (exists pre post,
         metrics_input = pre ++ context example_candidate ++ post)
  /\ exists mid v tail,
       context example_candidate
       = (keyword example_candidate ++ mid ++ v) ++ tail
       /\ value example_candidate = Some v
       /\ ~ In LF (keyword example_candidate ++ mid ++ v)
       /\ Forall (fun ch => isspace ch = true
                            \/ In ch (List.concat unit_symbols)) tail.
Proof.
  split; [exact example_candidate_found|].
  apply (@candidate_context_bounds metrics_input example_candidate
           example_candidate_found).
Defined.

(** The line feed after a number does belong to the context when more
    white space or a unit follows it. *)
Lemma context_crosses_line_feed :
  map context (_extract_metric_candidates wrapped_input)
  = [lit "員工 12" ++ LF :: lit "人"; lit "薪資 5 萬"].
Proof. vm_compute. reflexivity. Qed.

(** X9.  A text without any decimal digit gives no candidate. *)
Theorem no_digit_no_candidate (text : str) :
  (forall ch, In ch text -> isdecimal ch = false) ->
  _extract_metric_candidates text = [].
Proof.
  intros Hnone.
  destruct (_extract_metric_candidates text) as [|c cs] eqn:E; [reflexivity|].
  assert (Hin : In c (_extract_metric_candidates text))
    by (rewrite E; left; reflexivity).
  destruct (candidate_parts _ _ Hin)
    as (_ & mid & v & tail & Ec & _ & _ & (d & ds & -> & Hd) & _).
  destruct (candidate_in_text _ _ Hin) as (pre & post & Et).
  assert (Hdin : In d text).
  { rewrite Et, Ec. rewrite !in_app_iff. right. left. right. right. left.
    left. reflexivity. }
  rewrite (Hnone d Hdin) in Hd. discriminate.
Qed.

Lemma no_digit_no_candidate_witness :
  (forall ch, In ch (lit "員工人數眾多。") -> isdecimal ch = false)
  /\ _extract_metric_candidates (lit "員工人數眾多。") = [].
Proof.
  assert (H : forall ch, In ch (lit "員工人數眾多。") -> isdecimal ch = false).
  { intros ch Hin. vm_compute in Hin.
    repeat (destruct Hin as [<-|Hin]; [vm_compute; reflexivity|]).
    destruct Hin. }
  split; [exact H|].
  apply (@no_digit_no_candidate (lit "員工人數眾多。") H).
Defined.

Lemma match_at_end (r : regex) (pos : nat) (s : str) (m : re_match) :
  match_at r pos s = Some m ->
  m_start m = pos /\ m_end m = pos + List.length (group0 m).
Proof.
  unfold match_at. intros H. apply run_result in H. destruct H as [s' H].
  injection H as <-. split; reflexivity.
Qed.

(** The matches of one scan lie one after the other: a match begins
    where the one before ended, or later. *)
Lemma finditer_from_apart (r : regex) (s : str) :
  forall pos skip,
    Forall (fun m => pos + skip <= m_start m) (finditer_from r pos skip s)
    /\ StronglySorted (fun a b => m_end a <= m_start b)
                      (finditer_from r pos skip s).
Proof.
  induction s as [|c s IH]; intros pos skip.
  - destruct skip as [|skip]; cbn [finditer_from]; [|split; constructor].
    destruct (match_at r pos []) as [m|] eqn:E; [|split; constructor].
    destruct (match_at_end _ _ _ E) as [Hst _].
    split; constructor; try constructor. lia.
  - destruct skip as [|skip]; cbn [finditer_from].
    + destruct (match_at r pos (c :: s)) as [m|] eqn:E.
      * destruct (match_at_end _ _ _ E) as [Hst Hen].
        destruct (IH (S pos) (m_end m - m_start m - 1)) as [HF HS].
        split.
        -- constructor; [lia|].
           eapply Forall_impl; [|exact HF]. intros m' Hm'. cbv beta in *. lia.
        -- constructor; [exact HS|].
           eapply Forall_impl; [|exact HF]. intros m' Hm'. cbv beta in *. lia.
      * destruct (IH (S pos) 0) as [HF HS]. split; [|exact HS].
        eapply Forall_impl; [|exact HF]. intros m' Hm'. cbv beta in *. lia.
    + destruct (IH (S pos) skip) as [HF HS]. split; [|exact HS].
      eapply Forall_impl; [|exact HF]. intros m' Hm'. cbv beta in *. lia.
Qed.

Lemma keyword_match_not_empty (kw text : str) (m : re_match) :
  In m (finditer (keyword_pattern kw) text) -> m_start m < m_end m.
Proof.
  intros Hm. apply finditer_from_in in Hm. destruct Hm as (pos & s0 & Hm).
  destruct (match_at_end _ _ _ Hm) as [Hst Hen].
  apply match_at_Matches in Hm. destruct Hm as (s' & HM & Hg & _).
  destruct (keyword_match_shape HM)
    as (mid & v & tail & Es & _ & _ & (d & ds & -> & _) & _).
  rewrite Es, consumed_app in Hg.
  rewrite Hen, Hst, Hg, !length_app. cbn [List.length]. lia.
Qed.

Lemma visits_apart (rank : str -> nat) (found : str -> list re_match)
      (kws : list str) :
  (forall kw, StronglySorted (fun a b => m_end a <= m_start b) (found kw)) ->
  StronglySorted (fun a b => rank a < rank b) kws ->
  StronglySorted (fun x y => fst x = fst y -> m_end (snd x) <= m_start (snd y))
                 (visits found kws).
Proof.
  intros Hfound. induction 1 as [|kw kws Hs IH Hkw]; [constructor|].
  unfold visits. cbn [flat_map]. fold (visits found kws).
  apply StronglySorted_app_cross.
  - pose proof (Hfound kw) as Hf.
    induction Hf as [|m ms Hms IHm Hm]; cbn [map]; constructor; [exact IHm|].
    apply Forall_map. eapply Forall_impl; [|exact Hm].
    intros m' Hle _. exact Hle.
  - exact IH.
  - intros x y Hx Hy Heq. apply in_map_iff in Hx. destruct Hx as [m [<- _]].
    apply visits_keyword in Hy. destruct Hy as [Hy _].
    rewrite Forall_forall in Hkw. specialize (Hkw _ Hy).
    cbn [fst] in Heq. rewrite Heq in Hkw. lia.
Qed.

(** X10.  For one keyword the contexts come from stretches of the text
    that do not overlap and follow one another in text order; every
    stretch is non-empty and is the text between its start and its end. *)
Theorem candidate_stretches_apart (text : str) :
  StronglySorted (fun x y => fst x = fst y ->
                             m_end (snd x) <= m_start (snd y))
                 (metric_matches text)
  /\ Forall (fun x =>
               m_start (snd x) < m_end (snd x)
               /\ group0 (snd x)
                  = firstn (m_end (snd x) - m_start (snd x))
                           (skipn (m_start (snd x)) text))
            (metric_matches text).
Proof.
  split.
  - apply (@visits_apart keyword_rank
             (fun kw => finditer (keyword_pattern kw) text)).
    + intros kw. apply finditer_from_apart.
    + apply esg_keywords_ranked.
  - apply Forall_forall. intros [kw m] Hin.
    apply (@visits_keyword (fun kw => finditer (keyword_pattern kw) text))
      in Hin.
    destruct Hin as [_ Hm]. cbn [fst snd] in *. split.
    + apply (keyword_match_not_empty _ _ _ Hm).
    + destruct (finditer_ordered (keyword_pattern kw) text) as [HF _].
      rewrite Forall_forall in HF. apply HF. exact Hm.
Qed.

(** * Further properties of the readers and of the pipeline *)

Section ReaderProperties.
Context {L : Libraries}.

Lemma read_pdf_unfold (file_path : Path) :
  _read_pdf file_path
  = (pages <- open_with PdfReader file_path ;;
     foldM pdf_page_step ([], []) pages).
Proof. reflexivity. Qed.

Lemma read_docx_unfold (file_path : Path) :
  _read_docx file_path
  = (doc <- open_with docx_Document file_path ;;
     let text := flat_map (fun para => para ++ [LF]) (paragraphs doc) in
     tbls <- foldM docx_table_step [] (tables doc) ;;
     ret (text, tbls)).
Proof. reflexivity. Qed.

Lemma read_excel_unfold (file_path : Path) :
  _read_excel file_path
  = (sheet_names <- open_with pd_ExcelFile file_path ;;
     foldM (excel_sheet_step file_path) ([], []) sheet_names).
Proof. reflexivity. Qed.

Lemma process_tables_unfold (tbls : list DataFrame) :
  _process_tables tbls
  = (r <- foldM process_table_step ([], 1%N) tbls ;; ret (fst r)).
Proof. reflexivity. Qed.

Lemma open_with_value (A : Type) (reader : Path -> exn + A) (p : Path) :
  open_with reader p = ([FileRead (path_str p)], reader p).
Proof.
  unfold open_with, bind, emit, lift. reflexivity.
Qed.

(** The page loop, when every page gives its text. *)
Lemma pdf_pages_closed (pages : list Page) :
  Forall (fun page => exists t, extract_text page = inr t) pages ->
  forall text tbls,
    foldM pdf_page_step (text, tbls) pages
    = (flat_map page_warnings pages,
       inr (text ++ flat_map page_text pages,
            tbls ++ flat_map page_tables pages)).
Proof.
  induction 1 as [|page pages [t Ht] _ IH]; intros text tbls.
  - cbn [foldM flat_map]. rewrite !app_nil_r. reflexivity.
  - cbn [foldM flat_map]. unfold pdf_page_step at 1.
    unfold page_text at 1, page_tables at 1, page_warnings at 1.
    rewrite Ht.
    destruct (_extract_tables_from_pdf_page page) as [e|ts];
      cbn [bind lift try_except ret emit app]; rewrite IH;
      rewrite <- !app_assoc; reflexivity.
Qed.

(** X11.  Reading a PDF whose pages all give their text: the file is
    opened once, the text is the page texts in page order, each followed
    by a line feed, and the tables are those of the pages where table
    extraction worked.  A page where it raised costs one warning and
    nothing else: the page keeps its text and the read goes on. *)
Theorem read_pdf_closed (file_path : Path) (pages : list Page) :
  PdfReader file_path = inr pages ->
  Forall (fun page => exists t, extract_text page = inr t) pages ->
  _read_pdf file_path
  = (FileRead (path_str file_path) :: flat_map page_warnings pages,
     inr (flat_map page_text pages, flat_map page_tables pages)).
Proof.
  intros Hopen Hpages. rewrite read_pdf_unfold, open_with_value, Hopen.
  cbn [bind]. rewrite (pdf_pages_closed Hpages). reflexivity.
Qed.

(** The page loop raises what [extract_text] raised, nothing else. *)
Lemma pdf_pages_raise (pages : list Page) :
  forall acc evs e,
    foldM pdf_page_step acc pages = (evs, inl e) ->
    exists page, In page pages /\ extract_text page = inl e.
Proof.
  induction pages as [|page pages IH]; intros [text tbls] evs e H.
  - discriminate.
  - cbn [foldM] in H. unfold pdf_page_step at 1 in H.
    destruct (extract_text page) as [e'|t] eqn:Et.
    + cbn [bind lift] in H. injection H as _ <-.
      exists page. split; [left; reflexivity|exact Et].
    + destruct (_extract_tables_from_pdf_page page) as [e'|ts];
        cbn [bind lift try_except ret emit app] in H;
        match type of H with
        | (let '(_, _) := ?f in _) = _ =>
          destruct f as [evs' [e''|r]] eqn:Ef; [|discriminate]
        end;
        injection H as _ <-;
        destruct (IH _ _ _ Ef) as [pg [Hin Hpg]];
        exists pg; (split; [right; exact Hin|exact Hpg]).
Qed.

(** X12.  [_read_pdf] raises only what opening the file raised or what
    [extract_text] raised on one of the pages; an exception of the
    table extraction never leaves it. *)
Theorem read_pdf_raises (file_path : Path) (evs : list event) (e : exn) :
  _read_pdf file_path = (evs, inl e) ->
  PdfReader file_path = inl e
  \/ exists pages page,
       PdfReader file_path = inr pages
       /\ In page pages /\ extract_text page = inl e.
Proof.
  rewrite read_pdf_unfold, open_with_value.
  destruct (PdfReader file_path) as [e'|pages] eqn:Hopen; cbn [bind].
  - intros H. injection H as _ <-. left. reflexivity.
  - destruct (foldM pdf_page_step ([], []) pages) as [evs' [e'|r]] eqn:Ef;
      [|discriminate].
    intros H. injection H as _ <-. right.
    destruct (pdf_pages_raise _ _ Ef) as [page [Hin Hp]].
    exists pages, page. repeat split; assumption.
Qed.

(** The table loop of a Word document never raises. *)
Lemma docx_tables_closed (datas : list (list (list str))) :
  forall tbls,
    foldM docx_table_step tbls datas
    = (flat_map table_warnings datas,
       inr (tbls ++ flat_map table_frames datas)).
Proof.
  induction datas as [|data datas IH]; intros tbls.
  - cbn [foldM flat_map]. rewrite app_nil_r. reflexivity.
  - cbn [foldM flat_map]. unfold docx_table_step at 1.
    unfold table_frames at 1, table_warnings at 1.
    destruct data as [|header body].
    + cbn [bind try_except ret app]. rewrite IH. reflexivity.
    + destruct (pd_DataFrame body header) as [e|df];
        cbn [bind lift try_except ret emit app]; rewrite IH;
        rewrite <- ?app_assoc; reflexivity.
Qed.

(** X13.  Once a Word document is opened, reading it cannot fail: the
    text is the paragraphs in order, each followed by a line feed; a
    table with rows gives one frame, its first row as header, when the
    frame can be built and one warning when it cannot; a table without
    rows gives neither. *)
Theorem read_docx_closed (file_path : Path) (doc : docx_document) :
  docx_Document file_path = inr doc ->
  _read_docx file_path
  = (FileRead (path_str file_path) :: flat_map table_warnings (tables doc),
     inr (flat_map (fun para => para ++ [LF]) (paragraphs doc),
          flat_map table_frames (tables doc))).
Proof.
  intros Hopen. rewrite read_docx_unfold, open_with_value, Hopen.
  cbn [bind]. rewrite docx_tables_closed. cbn [bind ret app].
  rewrite app_nil_r. reflexivity.
Qed.

(** The sheet loop, when every sheet can be read. *)
Lemma excel_sheets_closed (file_path : Path) (names : list str)
      (dfs : list DataFrame) :
  Forall2 (fun name df => pd_read_excel file_path name = inr df) names dfs ->
  forall text all_sheets,
    foldM (excel_sheet_step file_path) (text, all_sheets) names
    = ([], inr (text ++ flat_map sheet_block (combine names dfs),
                all_sheets ++ dfs)).
Proof.
  induction 1 as [|name df names dfs Hdf _ IH]; intros text all_sheets.
  - cbn [foldM combine flat_map]. rewrite !app_nil_r. reflexivity.
  - cbn [foldM combine flat_map]. unfold excel_sheet_step at 1.
    rewrite Hdf. cbn [bind lift ret app]. rewrite IH.
    unfold sheet_block at 2. cbn [fst snd].
    repeat (rewrite <- app_assoc || rewrite <- app_comm_cons). reflexivity.
Qed.

(** X14.  Reading a workbook whose sheets can all be read: one file is
    opened, nothing is logged, the tables are the sheets in workbook
    order, and the text is, for each sheet, a line feed, 工作表: and
    the sheet name, a line feed, the rendered sheet and a line feed. *)
Theorem read_excel_closed (file_path : Path) (names : list str)
      (dfs : list DataFrame) :
  pd_ExcelFile file_path = inr names ->
  Forall2 (fun name df => pd_read_excel file_path name = inr df) names dfs ->
  _read_excel file_path
  = ([FileRead (path_str file_path)],
     inr (flat_map sheet_block (combine names dfs), dfs)).
Proof.
  intros Hopen Hall. rewrite read_excel_unfold, open_with_value, Hopen.
  cbn [bind]. rewrite (@excel_sheets_closed _ _ _ Hall). reflexivity.
Qed.

(** The sheet loop stops at the first sheet that cannot be read. *)
Lemma excel_sheets_abort (file_path : Path) (names : list str) (name : str)
      (e : exn) :
  In name names -> pd_read_excel file_path name = inl e ->
  forall acc,
    exists e', foldM (excel_sheet_step file_path) acc names = ([], inl e')
               /\ exists name', In name' names
                                /\ pd_read_excel file_path name' = inl e'.
Proof.
  intros Hin He. induction names as [|n names IH]; [destruct Hin|].
  intros [text all_sheets]. cbn [foldM]. unfold excel_sheet_step at 1.
  destruct (pd_read_excel file_path n) as [e0|df] eqn:En.
  - exists e0. cbn [bind lift]. split; [reflexivity|].
    exists n. split; [left; reflexivity|exact En].
  - destruct Hin as [->|Hin]; [congruence|].
    cbn [bind lift ret app].
    match goal with
    | |- context [foldM _ ?acc names] =>
      destruct (IH Hin acc) as [e' [Hf [n' [Hn' He']]]]
    end.
    exists e'. rewrite Hf. split; [reflexivity|].
    exists n'. split; [right; exact Hn'|exact He'].
Qed.

(** X15.  One sheet that cannot be read makes the whole workbook fail:
    [_read_excel] raises the exception of a sheet and returns nothing
    of the sheets read before it. *)
Theorem read_excel_aborts (file_path : Path) (names : list str) (name : str)
      (e : exn) :
  pd_ExcelFile file_path = inr names ->
  In name names -> pd_read_excel file_path name = inl e ->
  exists e', _read_excel file_path = ([FileRead (path_str file_path)], inl e')
             /\ exists name', In name' names
                              /\ pd_read_excel file_path name' = inl e'.
Proof.
  intros Hopen Hin He. rewrite read_excel_unfold, open_with_value, Hopen.
  cbn [bind].
  destruct (@excel_sheets_abort _ _ _ _ Hin He ([], [])) as [e' [Hf Hn]].
  exists e'. rewrite Hf. split; [reflexivity|exact Hn].
Qed.

Lemma join_labels_strings (sep : str) (ls : list label) :
  Forall is_str_label ls ->
  forall i, join_labels sep i ls = inr (join_with sep (map label_text ls)).
Proof.
  induction 1 as [|l ls Hl Hls IH]; intros i; [reflexivity|].
  destruct l as [s|ty]; [|destruct Hl].
  destruct ls as [|l' ls]; [reflexivity|].
  cbn [join_labels]. cbn [join_labels] in IH. rewrite IH. reflexivity.
Qed.

Lemma join_labels_other (sep : str) (ls : list label) :
  Exists (fun l => ~ is_str_label l) ls ->
  forall i, exists e, join_labels sep i ls = inl e /\ exn_kind e = TypeError.
Proof.
  induction ls as [|l ls IH]; intros Hex i; [inversion Hex|].
  destruct l as [s|ty].
  - inversion Hex as [? ? Hl|? ? Hls]; subst; [exfalso; apply Hl; exact I|].
    destruct ls as [|l' ls]; [inversion Hls|].
    destruct (IH Hls (N.succ i)) as [e [He Hk]].
    exists e. cbn [join_labels]. cbn [join_labels] in He. rewrite He.
    split; [reflexivity|exact Hk].
  - eexists. split; reflexivity.
Qed.

Lemma join_labels_cons_str (sep s : str) (i : N) (l : label) (ls : list label) :
  join_labels sep i (StrLabel s :: l :: ls)
  = match join_labels sep (N.succ i) (l :: ls) with
    | inr t => inr (s ++ sep ++ t)
    | inl e => inl e
    end.
Proof. reflexivity. Qed.

(** [join_labels] raises nothing but [TypeError]. *)
Lemma join_labels_raises (sep : str) (ls : list label) :
  forall i e, join_labels sep i ls = inl e -> exn_kind e = TypeError.
Proof.
  induction ls as [|l ls IH]; intros i e H; [discriminate|].
  destruct l as [s|ty].
  - destruct ls as [|l' ls]; [discriminate|].
    rewrite join_labels_cons_str in H.
    destruct (join_labels sep (N.succ i) (l' :: ls)) as [e'|t] eqn:E;
      [|discriminate].
    injection H as <-. exact (IH _ _ E).
  - cbn [join_labels] in H. injection H as <-. reflexivity.
Qed.

Lemma join_labels_raises_other (sep : str) (ls : list label) :
  forall i e, join_labels sep i ls = inl e ->
              Exists (fun l => ~ is_str_label l) ls.
Proof.
  induction ls as [|l ls IH]; intros i e H; [discriminate|].
  destruct l as [s|ty]; [|left; intros []].
  right. destruct ls as [|l' ls]; [discriminate|].
  rewrite join_labels_cons_str in H.
  destruct (join_labels sep (N.succ i) (l' :: ls)) as [e'|t] eqn:E;
    [|discriminate].
  exact (IH _ _ E).
Qed.

Lemma process_tables_loop_closed (tbls : list DataFrame) :
  Forall (fun df => Forall is_str_label (columns df)) tbls ->
  forall text i,
    exists i',
      foldM process_table_step (text, i) tbls
      = ([], inr (text ++ table_blocks i tbls, i')).
Proof.
  induction 1 as [|df tbls Hdf _ IH]; intros text i.
  - exists i. cbn [foldM table_blocks]. rewrite app_nil_r. reflexivity.
  - cbn [foldM]. unfold process_table_step at 1.
    rewrite (join_labels_strings _ Hdf). cbn [bind lift ret app].
    match goal with
    | |- context [foldM _ (?t, ?j) tbls] => destruct (IH t j) as [i' Hi']
    end.
    exists i'. rewrite Hi'. cbn [table_blocks]. unfold table_block.
    repeat (rewrite <- app_assoc || rewrite <- app_comm_cons). reflexivity.
Qed.

Lemma process_tables_loop_outcome (tbls : list DataFrame) :
  forall acc,
    fst (foldM process_table_step acc tbls) = []
    /\ forall e, snd (foldM process_table_step acc tbls) = inl e ->
                 exn_kind e = TypeError
                 /\ Exists (fun df => Exists (fun l => ~ is_str_label l)
                                             (columns df)) tbls.
Proof.
  induction tbls as [|df tbls IH]; intros [text i].
  - split; [reflexivity|]. intros e H. discriminate.
  - cbn [foldM]. unfold process_table_step at 1. unfold process_table_step at 2.
    destruct (join_labels (lit ", ") 0 (columns df)) as [e0|cols] eqn:E.
    + cbn [bind lift fst snd]. split; [reflexivity|].
      intros e H. injection H as <-.
      split; [exact (join_labels_raises _ _ _ E)|].
      left. exact (join_labels_raises_other _ _ _ E).
    + cbn [bind lift ret app].
      match goal with
      | |- context [foldM _ ?acc tbls] => destruct (IH acc) as [Hev Herr]
      end.
      destruct (foldM process_table_step _ tbls) as [evs r].
      cbn [fst snd] in *. split; [exact Hev|].
      intros e H. destruct (Herr e H) as [Hk Hex].
      split; [exact Hk|right; exact Hex].
Qed.

Lemma process_tables_outcome (tbls : list DataFrame) :
  fst (_process_tables tbls) = []
  /\ forall e, snd (_process_tables tbls) = inl e ->
               exn_kind e = TypeError
               /\ Exists (fun df => Exists (fun l => ~ is_str_label l)
                                           (columns df)) tbls.
Proof.
  rewrite process_tables_unfold.
  destruct (process_tables_loop_outcome tbls ([], 1%N)) as [Hev Herr].
  destruct (foldM process_table_step ([], 1%N) tbls) as [evs [e|r]];
    cbn [fst snd bind ret] in *; subst evs.
  - split; [reflexivity|]. intros e' H. injection H as <-. apply Herr.
    reflexivity.
  - split; [reflexivity|]. intros e' H. discriminate.
Qed.

(** X16.  With column labels that are all strings, linearising tables
    never fails and logs nothing: the text is, table after table, a
    line feed, 表格 and the number of the table counted from 1, a
    colon, the line of the labels joined by a comma and a space, and
    the rendered table. *)
Theorem process_tables_closed (tbls : list DataFrame) :
  Forall (fun df => Forall is_str_label (columns df)) tbls ->
  _process_tables tbls = ([], inr (table_blocks 1 tbls)).
Proof.
  intros H. rewrite process_tables_unfold.
  destruct (process_tables_loop_closed H [] 1%N) as [i' Hi'].
  rewrite Hi'. reflexivity.
Qed.

Lemma process_tables_type_error (tbls : list DataFrame) :
  Exists (fun df => Exists (fun l => ~ is_str_label l) (columns df)) tbls ->
  exists e, _process_tables tbls = ([], inl e) /\ exn_kind e = TypeError.
Proof.
  intros Hex.
  destruct (process_tables_outcome tbls) as [Hev Herr].
  destruct (_process_tables tbls) as [evs [e|text]] eqn:E;
    cbn [fst snd] in *; subst evs.
  - exists e. split; [reflexivity|]. apply Herr. reflexivity.
  - exfalso. clear Herr.
    revert E. rewrite process_tables_unfold.
    assert (Hloop : forall acc,
               exists e, foldM process_table_step acc tbls = ([], inl e)).
    { induction Hex as [df tbls Hdf|df tbls _ IH]; intros [t i].
      - cbn [foldM]. unfold process_table_step at 1.
        destruct (join_labels_other (lit ", ") Hdf 0) as [e [He _]].
        rewrite He. exists e. reflexivity.
      - cbn [foldM]. unfold process_table_step at 1.
        destruct (join_labels (lit ", ") 0 (columns df)) as [e|cols].
        + exists e. reflexivity.
        + cbn [bind lift ret app].
          match goal with
          | |- context [foldM _ ?acc tbls] => destruct (IH acc) as [e He]
          end.
          exists e. rewrite He. reflexivity. }
    destruct (Hloop ([], 1%N)) as [e He]. rewrite He. discriminate.
Qed.

(** A loop whose turns only warn only warns. *)
Lemma foldM_warnings (A B : Type) (f : A -> B -> M A) (xs : list B) :
  (forall a x, Forall is_warning (fst (f a x))) ->
  forall a, Forall is_warning (fst (foldM f a xs)).
Proof.
  intros Hf. induction xs as [|x xs IH]; intros a; [constructor|].
  cbn [foldM]. unfold bind. specialize (Hf a x).
  destruct (f a x) as [evs [e|a']]; cbn [fst] in *; [exact Hf|].
  specialize (IH a'). destruct (foldM f a' xs) as [evs' r]. cbn [fst] in *.
  apply Forall_app. split; assumption.
Qed.

Lemma pdf_page_step_warnings (acc : str * list DataFrame) (page : Page) :
  Forall is_warning (fst (pdf_page_step acc page)).
Proof.
  destruct acc as [text tbls]. unfold pdf_page_step.
  destruct (extract_text page) as [e|t]; [constructor|].
  destruct (_extract_tables_from_pdf_page page) as [e|ts];
    cbn [bind lift try_except ret emit app fst];
    repeat constructor.
Qed.

Lemma excel_sheet_step_warnings (file_path : Path)
      (acc : str * list DataFrame) (name : str) :
  Forall is_warning (fst (excel_sheet_step file_path acc name)).
Proof.
  destruct acc as [text tbls]. unfold excel_sheet_step.
  destruct (pd_read_excel file_path name) as [e|df]; constructor.
Qed.

Lemma table_warnings_are_warnings (datas : list (list (list str))) :
  Forall is_warning (flat_map table_warnings datas).
Proof.
  induction datas as [|data datas IH]; [constructor|].
  cbn [flat_map]. apply Forall_app. split; [|exact IH].
  unfold table_warnings. destruct data as [|header body]; [constructor|].
  destruct (pd_DataFrame body header); repeat constructor.
Qed.

(** Each reader opens the file once, first, and then only warns. *)
Lemma read_document_trace (suffix : str) (file_path : Path) :
  supported suffix ->
  exists ws r,
    read_document suffix file_path = (FileRead (path_str file_path) :: ws, r)
    /\ Forall is_warning ws.
Proof.
  intros Hs. unfold read_document.
  destruct (str_eqb suffix (lit ".pdf")) eqn:E1.
  - rewrite read_pdf_unfold, open_with_value.
    destruct (PdfReader file_path) as [e|pages]; cbn [bind].
    + exists [], (inl e). split; [reflexivity|constructor].
    + pose proof (foldM_warnings _ pages pdf_page_step_warnings ([], [])) as H.
      destruct (foldM pdf_page_step ([], []) pages) as [evs r].
      exists evs, r. split; [reflexivity|exact H].
  - destruct (str_eqb suffix (lit ".docx")) eqn:E2.
    + rewrite read_docx_unfold, open_with_value.
      destruct (docx_Document file_path) as [e|doc]; cbn [bind].
      * exists [], (inl e). split; [reflexivity|constructor].
      * rewrite docx_tables_closed. cbn [bind ret app].
        eexists _, _. split; [reflexivity|].
        rewrite app_nil_r. apply table_warnings_are_warnings.
    + destruct (str_eqb suffix (lit ".xlsx")) eqn:E3.
      * rewrite read_excel_unfold, open_with_value.
        destruct (pd_ExcelFile file_path) as [e|names]; cbn [bind].
        -- exists [], (inl e). split; [reflexivity|constructor].
        -- pose proof (foldM_warnings _ names
                         (excel_sheet_step_warnings file_path) ([], [])) as H.
           destruct (foldM (excel_sheet_step file_path) ([], []) names)
             as [evs r].
           exists evs, r. split; [reflexivity|exact H].
      * exfalso. unfold supported in Hs.
        destruct Hs as [H|[H|[H|[]]]]; subst suffix;
          [rewrite (proj2 (str_eqb_eq _ _) eq_refl) in E1
          |rewrite (proj2 (str_eqb_eq _ _) eq_refl) in E2
          |rewrite (proj2 (str_eqb_eq _ _) eq_refl) in E3]; discriminate.
Qed.

Lemma read_document_supported (suffix : str) (file_path : Path)
      (evs : list event) (r : str * list DataFrame) :
  read_document suffix file_path = (evs, inr r) -> supported suffix.
Proof.
  unfold read_document, supported.
  destruct (str_eqb suffix (lit ".pdf")) eqn:E1;
    [apply str_eqb_eq in E1; subst; intros _; left; reflexivity|].
  destruct (str_eqb suffix (lit ".docx")) eqn:E2;
    [apply str_eqb_eq in E2; subst; intros _; right; left; reflexivity|].
  destruct (str_eqb suffix (lit ".xlsx")) eqn:E3;
    [apply str_eqb_eq in E3; subst; intros _; right; right; left; reflexivity|].
  discriminate.
Qed.

Section Document.
Variable self : DocumentProcessor.
Variable file_path : Path.

(** The run written out: what the reader gave, what linearising the
    tables gave, and what [process_document] makes of them. *)
Lemma process_document_cases :
  (exists evs e,
      read_document (lower (path_suffix file_path)) file_path = (evs, inl e)
      /\ process_document self file_path
         = (evs ++ [LogError (lit "Error processing document: "
                              ++ exn_text e)], inl e))
  \/ (exists evs text tbls e,
         read_document (lower (path_suffix file_path)) file_path
         = (evs, inr (text, tbls))
         /\ _process_tables tbls = ([], inl e)
         /\ process_document self file_path
            = (evs ++ [LogError (lit "Error processing document: "
                                 ++ exn_text e)], inl e))
  \/ (exists evs text tbls table_texts,
         read_document (lower (path_suffix file_path)) file_path
         = (evs, inr (text, tbls))
         /\ _process_tables tbls = ([], inr table_texts)
         /\ process_document self file_path
            = (evs,
               inr (_split_text self (text ++ LF :: table_texts),
                    MkMetadata (path_name file_path)
                               (lower (path_suffix file_path))
                               now_isoformat
                               (Z.of_nat (List.length tbls))
                               (Z.of_nat
                                  (List.length
                                     (_split_text
                                        self (text ++ LF :: table_texts))))))).
Proof.
  unfold process_document.
  destruct (read_document (lower (path_suffix file_path)) file_path)
    as [evs [e|[text tbls]]].
  - left. exists evs, e. split; reflexivity.
  - right. cbn [bind]. destruct (process_tables_outcome tbls) as [Hev _].
    destruct (_process_tables tbls) as [evs2 [e|table_texts]] eqn:EP;
      cbn [fst] in Hev; subst evs2.
    + left. exists evs, text, tbls, e.
      cbn [bind try_except emit raise app]. rewrite ?app_nil_r.
      split; [reflexivity|]. split; [exact EP|reflexivity].
    + right. exists evs, text, tbls, table_texts.
      cbn [bind try_except ret app file_name file_type process_time
               tables_found total_chunks].
      rewrite ?app_nil_r.
      split; [reflexivity|]. split; [exact EP|reflexivity].
Qed.

End Document.

Section DocumentProperties.
Variable self : DocumentProcessor.
Variable file_path : Path.

(** X18.  What a run on a supported suffix leaves behind: the file was
    opened exactly once, first, under the path given; then come warnings
    only; a run that raises adds one error line, last, with the text of
    the exception it raises, and a run that returns adds none. *)
Theorem process_document_trace :
  supported (lower (path_suffix file_path)) ->
  exists ws,
    Forall is_warning ws
    /\ match snd (process_document self file_path) with
       | inr _ =>
         fst (process_document self file_path)
         = FileRead (path_str file_path) :: ws
       | inl e =>
         fst (process_document self file_path)
         = FileRead (path_str file_path) :: ws
             ++ [LogError (lit "Error processing document: " ++ exn_text e)]
       end.
Proof.
  intros Hs.
  destruct (read_document_trace file_path Hs) as (ws & r & Hr & Hws).
  exists ws. split; [exact Hws|].
  destruct (process_document_cases self file_path)
    as [(evs & e & Er & ->)
       |[(evs & text & tbls & e & Er & _ & ->)
        |(evs & text & tbls & tt & Er & _ & ->)]];
    rewrite Hr in Er; injection Er as <- _; reflexivity.
Qed.

(** X19.  A run returns only for a supported suffix: the metadata then
    carry the file name of the path, the lower-cased suffix, which is
    one of .pdf, .docx and .xlsx, and the time read from the clock, and
    no error was logged. *)
Theorem process_document_success (evs : list event) (chunks : list str)
      (md : Metadata) :
  process_document self file_path = (evs, inr (chunks, md)) ->
  supported (file_type md)
  /\ file_type md = lower (path_suffix file_path)
  /\ file_name md = path_name file_path
  /\ process_time md = now_isoformat
  /\ Forall (fun ev => forall msg, ev <> LogError msg) evs.
Proof.
  intros H.
  destruct (process_document_cases self file_path)
    as [(evs' & e & _ & E)
       |[(evs' & text & tbls & e & _ & _ & E)
        |(evs' & text & tbls & tt & Er & _ & E)]];
    rewrite E in H; try discriminate.
  injection H as <- <- <-. cbn [file_type file_name process_time].
  pose proof (read_document_supported _ _ Er) as Hs.
  split; [exact Hs|]. repeat split.
  destruct (read_document_trace file_path Hs) as (ws & r & Hr & Hws).
  rewrite Hr in Er. injection Er as <- _.
  constructor; [intros msg; discriminate|].
  eapply Forall_impl; [|exact Hws].
  intros ev Hev msg ->. exact Hev.
Qed.

(** X17.  A table with a column label that is no string stops the
    document although it was read: joining the labels raises TypeError,
    [_process_tables] returns no text and [process_document] logs the
    error and raises it. *)
Theorem process_document_label_error (evs : list event) (text : str)
      (tbls : list DataFrame) :
  read_document (lower (path_suffix file_path)) file_path
  = (evs, inr (text, tbls)) ->
  Exists (fun df => Exists (fun l => ~ is_str_label l) (columns df)) tbls ->
  exists e,
    exn_kind e = TypeError
    /\ _process_tables tbls = ([], inl e)
    /\ process_document self file_path
       = (evs ++ [LogError (lit "Error processing document: " ++ exn_text e)],
          inl e).
Proof.
  intros Hr Hex.
  destruct (process_tables_type_error Hex) as [e [Hp Hk]].
  exists e. split; [exact Hk|]. split; [exact Hp|].
  destruct (process_document_cases self file_path)
    as [(evs' & e' & Er & E)
       |[(evs' & text' & tbls' & e' & Er & Ep & E)
        |(evs' & text' & tbls' & tt & Er & Ep & E)]];
    rewrite Hr in Er; try discriminate;
    injection Er as <- <- <-; rewrite Hp in Ep; try discriminate.
  injection Ep as <-. exact E.
Qed.

(** X20.  When chunk_overlap does not exceed chunk_size a document that
    is processed always has at least one chunk, even when it holds no
    text at all. *)
Theorem process_document_chunk_count (evs : list event) (chunks : list str)
      (md : Metadata) :
  (0 <= chunk_size self - chunk_overlap self)%Z ->
  process_document self file_path = (evs, inr (chunks, md)) ->
  (1 <= total_chunks md)%Z /\ chunks <> [].
Proof.
  intros Hlim H.
  destruct (process_document_cases self file_path)
    as [(evs' & e & _ & E)
       |[(evs' & text & tbls & e & _ & _ & E)
        |(evs' & text & tbls & tt & Er & _ & E)]];
    rewrite E in H; try discriminate.
  injection H as <- <- <-. cbn [total_chunks].
  assert (Hne : _split_text self (text ++ LF :: tt) <> []).
  { unfold _split_text. apply flush_started.
    apply scan_started; [exact Hlim|apply split_lines_not_nil]. }
  split; [|exact Hne].
  destruct (_split_text self (text ++ LF :: tt)); [congruence|].
  cbn [List.length]. lia.
Qed.

End DocumentProperties.

End ReaderProperties.

(** ** The reader properties at work in the two small worlds *)

Lemma read_pdf_closed_witness :
  @PdfReader Toy.libraries Runs.pdf_path = inr Runs.pdf_pages
  /\ Forall (fun page => exists t, @extract_text Toy.libraries page = inr t)
            Runs.pdf_pages
  /\ @_read_pdf Toy.libraries Runs.pdf_path
     = (FileRead (@path_str Toy.libraries Runs.pdf_path)
          :: flat_map (@page_warnings Toy.libraries) Runs.pdf_pages,
        inr (flat_map (@page_text Toy.libraries) Runs.pdf_pages,
             flat_map (@page_tables Toy.libraries) Runs.pdf_pages)).
Proof.
  assert (H1 : @PdfReader Toy.libraries Runs.pdf_path = inr Runs.pdf_pages)
    by reflexivity.
  assert (H2 : Forall (fun page =>
                         exists t, @extract_text Toy.libraries page = inr t)
                      Runs.pdf_pages).
  { constructor; [eexists; reflexivity|constructor]. }
  split; [exact H1|]. split; [exact H2|].
  exact (@read_pdf_closed Toy.libraries Runs.pdf_path Runs.pdf_pages H1 H2).
Defined.

Lemma read_pdf_raises_witness :
  @_read_pdf Office.libraries Runs.pdf_path
  = ([FileRead Runs.pdf_path], inl office_pdf_error)
  /\ (@PdfReader Office.libraries Runs.pdf_path = inl office_pdf_error
      \/ exists pages page,
           @PdfReader Office.libraries Runs.pdf_path = inr pages
           /\ In page pages
           /\ @extract_text Office.libraries page = inl office_pdf_error).
Proof.
  assert (H : @_read_pdf Office.libraries Runs.pdf_path
              = ([FileRead Runs.pdf_path], inl office_pdf_error))
    by (vm_compute; reflexivity).
  split; [exact H|].
  exact (@read_pdf_raises Office.libraries Runs.pdf_path _ _ H).
Defined.

Lemma read_docx_closed_witness :
  @docx_Document Toy.libraries Toy.docx_path = inr Toy.document
  /\ @_read_docx Toy.libraries Toy.docx_path
     = (FileRead (@path_str Toy.libraries Toy.docx_path)
          :: flat_map (@table_warnings Toy.libraries) (tables Toy.document),
        inr (flat_map (fun para => para ++ [LF]) (paragraphs Toy.document),
             flat_map (@table_frames Toy.libraries) (tables Toy.document))).
Proof.
  assert (H : @docx_Document Toy.libraries Toy.docx_path = inr Toy.document)
    by reflexivity.
  split; [exact H|].
  exact (@read_docx_closed Toy.libraries Toy.docx_path Toy.document H).
Defined.

Lemma read_excel_closed_witness :
  @pd_ExcelFile Office.libraries Runs.esg_workbook
  = inr [lit "人力"; lit "排放"]
  /\ Forall2 (fun name df =>
                @pd_read_excel Office.libraries Runs.esg_workbook name = inr df)
             [lit "人力"; lit "排放"] [Office.staff; Office.emissions]
  /\ @_read_excel Office.libraries Runs.esg_workbook
     = ([FileRead (@path_str Office.libraries Runs.esg_workbook)],
        inr (flat_map (@sheet_block Office.libraries)
                      (combine [lit "人力"; lit "排放"]
                               [Office.staff; Office.emissions]),
             [Office.staff; Office.emissions])).
Proof.
  assert (H1 : @pd_ExcelFile Office.libraries Runs.esg_workbook
               = inr [lit "人力"; lit "排放"]) by (vm_compute; reflexivity).
  assert (H2 : Forall2 (fun name df =>
                          @pd_read_excel Office.libraries Runs.esg_workbook name
                          = inr df)
                       [lit "人力"; lit "排放"]
                       [Office.staff; Office.emissions]).
  { constructor; [vm_compute; reflexivity|].
    constructor; [vm_compute; reflexivity|constructor]. }
  split; [exact H1|]. split; [exact H2|].
  exact (@read_excel_closed Office.libraries Runs.esg_workbook _ _ H1 H2).
Defined.

Lemma read_excel_aborts_witness :
  @pd_ExcelFile Office.libraries Runs.broken_workbook
  = inr [lit "人力"; Runs.bad_sheet; lit "排放"]
  /\ In Runs.bad_sheet [lit "人力"; Runs.bad_sheet; lit "排放"]
  /\ @pd_read_excel Office.libraries Runs.broken_workbook Runs.bad_sheet
     = inl (Exn OtherException (lit "cannot read sheet"))
  /\ exists e',
       @_read_excel Office.libraries Runs.broken_workbook
       = ([FileRead (@path_str Office.libraries Runs.broken_workbook)], inl e')
       /\ exists name',
            In name' [lit "人力"; Runs.bad_sheet; lit "排放"]
            /\ @pd_read_excel Office.libraries Runs.broken_workbook name'
               = inl e'.
Proof.
  assert (H1 : @pd_ExcelFile Office.libraries Runs.broken_workbook
               = inr [lit "人力"; Runs.bad_sheet; lit "排放"])
    by (vm_compute; reflexivity).
  assert (H2 : In Runs.bad_sheet [lit "人力"; Runs.bad_sheet; lit "排放"])
    by (right; left; reflexivity).
  assert (H3 : @pd_read_excel Office.libraries Runs.broken_workbook
                              Runs.bad_sheet
               = inl (Exn OtherException (lit "cannot read sheet")))
    by (vm_compute; reflexivity).
  split; [exact H1|]. split; [exact H2|]. split; [exact H3|].
  exact (@read_excel_aborts Office.libraries Runs.broken_workbook _
                            Runs.bad_sheet _ H1 H2 H3).
Defined.

Lemma process_tables_closed_witness :
  Forall (fun df => Forall is_str_label (@columns Office.libraries df))
         [Office.staff; Office.staff]
  /\ @_process_tables Office.libraries [Office.staff; Office.staff]
     = ([], inr (@table_blocks Office.libraries 1
                               [Office.staff; Office.staff])).
Proof.
  assert (H : Forall (fun df => Forall is_str_label
                                       (@columns Office.libraries df))
                     [Office.staff; Office.staff]).
  { repeat constructor. }
  split; [exact H|].
  exact (@process_tables_closed Office.libraries _ H).
Defined.

Lemma process_document_label_error_witness :
  @read_document Office.libraries
                 (@lower Office.libraries
                         (@path_suffix Office.libraries Runs.esg_workbook))
                 Runs.esg_workbook
  = ([FileRead Runs.esg_workbook],
     inr (esg_text, [Office.staff; Office.emissions]))
  /\ Exists (fun df => Exists (fun l => ~ is_str_label l)
                              (@columns Office.libraries df))
            [Office.staff; Office.emissions]
  /\ exists e,
       exn_kind e = TypeError
       /\ @_process_tables Office.libraries [Office.staff; Office.emissions]
          = ([], inl e)
       /\ @process_document Office.libraries default_processor
                            Runs.esg_workbook
          = ([FileRead Runs.esg_workbook]
               ++ [LogError (lit "Error processing document: "
                             ++ exn_text e)],
             inl e).
Proof.
  assert (H1 : @read_document Office.libraries
                 (@lower Office.libraries
                         (@path_suffix Office.libraries Runs.esg_workbook))
                 Runs.esg_workbook
               = ([FileRead Runs.esg_workbook],
                  inr (esg_text, [Office.staff; Office.emissions])))
    by (vm_compute; reflexivity).
  assert (H2 : Exists (fun df => Exists (fun l => ~ is_str_label l)
                                        (@columns Office.libraries df))
                      [Office.staff; Office.emissions]).
  { right. left. right. left. intros H. exact H. }
  split; [exact H1|]. split; [exact H2|].
  exact (@process_document_label_error Office.libraries default_processor
           Runs.esg_workbook _ _ _ H1 H2).
Defined.

Lemma process_document_trace_witness :
  supported (@lower Toy.libraries (@path_suffix Toy.libraries Toy.docx_path))
  /\ exists ws,
       Forall is_warning ws
       /\ match snd (@process_document Toy.libraries default_processor
                                       Toy.docx_path) with
          | inr _ =>
            fst (@process_document Toy.libraries default_processor
                                   Toy.docx_path)
            = FileRead (@path_str Toy.libraries Toy.docx_path) :: ws
          | inl e =>
            fst (@process_document Toy.libraries default_processor
                                   Toy.docx_path)
            = FileRead (@path_str Toy.libraries Toy.docx_path) :: ws
                ++ [LogError (lit "Error processing document: "
                              ++ exn_text e)]
          end.
Proof.
  assert (H : supported (@lower Toy.libraries
                                (@path_suffix Toy.libraries Toy.docx_path))).
  { right. left. vm_compute. reflexivity. }
  split; [exact H|].
  exact (@process_document_trace Toy.libraries default_processor
           Toy.docx_path H).
Defined.

Lemma process_document_success_witness :
  @process_document Toy.libraries default_processor Toy.docx_path
  = (Toy.docx_events, inr (Toy.docx_chunks, Toy.docx_metadata))
  /\ supported (file_type Toy.docx_metadata)
  /\ file_type Toy.docx_metadata
     = @lower Toy.libraries (@path_suffix Toy.libraries Toy.docx_path)
  /\ file_name Toy.docx_metadata = @path_name Toy.libraries Toy.docx_path
  /\ process_time Toy.docx_metadata = @now_isoformat Toy.libraries
  /\ Forall (fun ev => forall msg, ev <> LogError msg) Toy.docx_events.
Proof.
  assert (H : @process_document Toy.libraries default_processor Toy.docx_path
              = (Toy.docx_events, inr (Toy.docx_chunks, Toy.docx_metadata)))
    by (vm_compute; reflexivity).
  split; [exact H|].
  exact (@process_document_success Toy.libraries default_processor
           Toy.docx_path _ _ _ H).
Defined.

Lemma process_document_chunk_count_witness :
  (0 <= chunk_size default_processor - chunk_overlap default_processor)%Z
  /\ @process_document Toy.libraries default_processor Toy.docx_path
     = (Toy.docx_events, inr (Toy.docx_chunks, Toy.docx_metadata))
  /\ (1 <= total_chunks Toy.docx_metadata)%Z
  /\ Toy.docx_chunks <> [].
Proof.
  assert (H0 : (0 <= chunk_size default_processor
                     - chunk_overlap default_processor)%Z)
    by (vm_compute; discriminate).
  assert (H : @process_document Toy.libraries default_processor Toy.docx_path
              = (Toy.docx_events, inr (Toy.docx_chunks, Toy.docx_metadata)))
    by (vm_compute; reflexivity).
  split; [exact H0|]. split; [exact H|].
  exact (@process_document_chunk_count Toy.libraries default_processor
           Toy.docx_path _ _ _ H0 H).
Defined.

(** ** Numbers in the table headings *)

Lemma decimal_value_snoc (ds : str) (d : N) :
  decimal_value (ds ++ [d]) = (10 * decimal_value ds + (d - 48))%N.
Proof. unfold decimal_value. rewrite fold_left_app. reflexivity. Qed.

Lemma digits_fuel_decimal (fuel : nat) :
  forall n acc,
    (n < 2 ^ N.of_nat fuel)%N -> 0 < fuel ->
    exists ds,
      digits_fuel fuel n acc = ds ++ acc
      /\ decimal_value ds = n
      /\ ds <> []
      /\ Forall (fun c => (48 <= c <= 57)%N) ds.
Proof.
  induction fuel as [|fuel IH]; intros n acc Hn Hf; [lia|].
  cbn [digits_fuel]. destruct (N.ltb_spec n 10) as [Hlt|Hge].
  - exists [(48 + n mod 10)%N]. rewrite (N.mod_small n 10) by exact Hlt.
    split; [reflexivity|]. split; [|split; [discriminate|]].
    + unfold decimal_value. cbn [fold_left]. lia.
    + constructor; [lia|constructor].
  - assert (Hdiv : (n / 10 < 2 ^ N.of_nat fuel)%N).
    { apply N.Div0.div_lt_upper_bound.
      rewrite Nat2N.inj_succ, N.pow_succ_r' in Hn. lia. }
    assert (Hfuel : 0 < fuel).
    { destruct fuel; [|lia]. cbn in Hn. lia. }
    destruct (IH (n / 10)%N ((48 + n mod 10)%N :: acc) Hdiv Hfuel)
      as (ds & E & Hv & Hne & Hds).
    exists (ds ++ [(48 + n mod 10)%N]). rewrite E, <- app_assoc.
    split; [reflexivity|]. split; [|split].
    + rewrite decimal_value_snoc, Hv.
      replace (48 + n mod 10 - 48)%N with (n mod 10)%N by (generalize (n mod 10)%N; intros; lia). symmetry. apply N.Div0.div_mod.
    + destruct ds; discriminate.
    + apply Forall_app. split; [exact Hds|].
      constructor; [|constructor].
      pose proof (N.mod_upper_bound n 10 ltac:(discriminate)) as Hm.
      revert Hm. generalize (n mod 10)%N. intros r Hm. lia.
Qed.

(** The text written for a number is its decimal numeral: digits only,
    at least one, and they read back as the number. *)
Lemma str_of_N_decimal (n : N) :
  decimal_value (str_of_N n) = n
  /\ str_of_N n <> []
  /\ Forall (fun c => (48 <= c <= 57)%N) (str_of_N n).
Proof.
  unfold str_of_N.
  destruct (@digits_fuel_decimal (S (N.to_nat (N.log2 n))) n [])
    as (ds & E & Hv & Hne & Hds).
  - rewrite Nat2N.inj_succ, N2Nat.id.
    destruct n as [|p]; [reflexivity|]. apply N.log2_spec. lia.
  - lia.
  - rewrite E, app_nil_r. repeat split; assumption.
Qed.
